(** * ONNC: attributes, the Abs lowering rule, the update pass and the
      statistics counters

    A shallow embedding of
    - [include/onnc/IR/Compute/Attributes.h] (module [Attributes]),
    - [lib/Transforms/TensorSel/AbsLower.cpp] (module [TensorSel]),
    - the BM188x [UpdateCtablePass] (module [UpdatePass]),
    - the counter interface of [Statistics.cpp] (module [Stats]).

    C++ objects that are reached through pointers or references and mutated
    in place live in explicit stores: attributes in an object store indexed
    by address, compute operators in the node sequence of their graph
    (a handle is a position), values in the graph's name table. *)

From stdpp Require Import gmap strings list fin_maps.
From Stdlib Require Import ZArith DecimalString.

Local Open Scope Z_scope.

(* ===================================================================== *)
(** ** Attributes.h *)
(* ===================================================================== *)

Module Attributes.

(** [Attribute::Type] *)
Inductive Type_ : Type :=
  | kFloat | kInteger | kString | kTensor | kGraph
  | kFloatVec | kIntegerVec | kStringVec | kTensorVec | kGraphVec.

#[global] Instance Type_eq_dec : EqDecision Type_.
Proof. solve_decision. Defined.

(** [class Attribute]: the only data member is [m_Kind]. *)
Record Attribute : Type := { m_Kind : Type_ }.

(** [Attribute(Type pKind) : m_Kind(pKind)] *)
Definition Attribute_new (pKind : Type_) : Attribute := {| m_Kind := pKind |}.

(** [Type kind() const { return m_Kind; }] *)
Definition kind (this : Attribute) : Type_ := m_Kind this.

(** [Attribute(const Attribute& pCopy) : m_Kind(pCopy.kind())] *)
Definition Attribute_copy (pCopy : Attribute) : Attribute :=
  {| m_Kind := kind pCopy |}.

(** [Attribute& operator=(const Attribute& pCopy) { m_Kind = pCopy.kind(); }]
    The left operand's own member is overwritten. *)
Definition Attribute_assign (this pCopy : Attribute) : Attribute :=
  {| m_Kind := kind pCopy |}.

(** Addresses of attribute objects. *)
Abbreviation addr := positive.

Section Templates.
(** [template<typename ValueType, Attribute::Type Kind>]. Payloads are
    C++ value types: copying a payload yields an equal payload. *)
Variable ValueType : Type.
Variable Kind : Type_.
(** What [ValueType()] value-initialises to: zero for the arithmetic
    payloads, the empty string for [std::string]. *)
Variable value_init : ValueType.

(** [class ScalarAttribute : public Attribute] with [ValueType m_Value]. *)
Record ScalarAttribute : Type :=
  { s_base : Attribute; m_Value : ValueType }.

(** [ScalarAttribute() : Attribute(Kind), m_Value()] *)
Definition ScalarAttribute_default : ScalarAttribute :=
  {| s_base := Attribute_new Kind; m_Value := value_init |}.

(** [ScalarAttribute(const ValueType& pValue)] *)
Definition ScalarAttribute_new (pValue : ValueType) : ScalarAttribute :=
  {| s_base := Attribute_new Kind; m_Value := pValue |}.

(** [value()] *)
Definition value (this : ScalarAttribute) : ValueType := m_Value this.

(** [ScalarAttribute(const ScalarAttribute& pCopy)
      : Attribute(pCopy), m_Value(pCopy.value())] *)
Definition ScalarAttribute_copy (pCopy : ScalarAttribute) : ScalarAttribute :=
  {| s_base := Attribute_copy (s_base pCopy); m_Value := value pCopy |}.

(** [void setValue(const ValueType& pValue) { m_Value = pValue; }] *)
Definition setValue (this : ScalarAttribute) (pValue : ValueType)
  : ScalarAttribute :=
  {| s_base := s_base this; m_Value := pValue |}.

Definition skind (this : ScalarAttribute) : Type_ := kind (s_base this).

(** Copy construction of a new object at address [fresh] from the object
    at [pCopy]. *)
Definition ScalarAttribute_copy_at (fresh pCopy : addr)
    (h : gmap addr ScalarAttribute) : option (gmap addr ScalarAttribute) :=
  src ← h !! pCopy;
  Some (<[fresh := ScalarAttribute_copy src]> h).

(** [ScalarAttribute& operator=(const ScalarAttribute& pCopy)]: the two
    statements run one after the other on the store, so the second one
    reads [pCopy] after the first one has written [*this] (the operands
    may be the same object). *)
Definition ScalarAttribute_assign_at (this pCopy : addr)
    (h : gmap addr ScalarAttribute) : option (gmap addr ScalarAttribute) :=
  (* Attribute::operator=(pCopy); *)
  dst ← h !! this;
  src ← h !! pCopy;
  let h1 := <[this := {| s_base := Attribute_assign (s_base dst) (s_base src);
                         m_Value := m_Value dst |}]> h in
  (* m_Value = pCopy.value(); *)
  dst1 ← h1 !! this;
  src1 ← h1 !! pCopy;
  Some (<[this := {| s_base := s_base dst1; m_Value := value src1 |}]> h1).

(** [class VectorAttribute : public Attribute] with
    [std::vector<ValueType> m_Vector]. *)
Record VectorAttribute : Type :=
  { v_base : Attribute; m_Vector : list ValueType }.

(** [VectorAttribute() : Attribute(Kind), m_Vector()] *)
Definition VectorAttribute_default : VectorAttribute :=
  {| v_base := Attribute_new Kind; m_Vector := [] |}.

(** [VectorAttribute(const VectorType& pVector)] *)
Definition VectorAttribute_new (pVector : list ValueType) : VectorAttribute :=
  {| v_base := Attribute_new Kind; m_Vector := pVector |}.

(** [vector()] *)
Definition vector (this : VectorAttribute) : list ValueType := m_Vector this.

(** [VectorAttribute(const VectorAttribute& pCopy)] *)
Definition VectorAttribute_copy (pCopy : VectorAttribute) : VectorAttribute :=
  {| v_base := Attribute_copy (v_base pCopy); m_Vector := vector pCopy |}.

Definition vkind (this : VectorAttribute) : Type_ := kind (v_base this).

Definition VectorAttribute_copy_at (fresh pCopy : addr)
    (h : gmap addr VectorAttribute) : option (gmap addr VectorAttribute) :=
  src ← h !! pCopy;
  Some (<[fresh := VectorAttribute_copy src]> h).

(** [VectorAttribute& operator=(const VectorAttribute& pCopy)] *)
Definition VectorAttribute_assign_at (this pCopy : addr)
    (h : gmap addr VectorAttribute) : option (gmap addr VectorAttribute) :=
  (* Attribute::operator=(pCopy); *)
  dst ← h !! this;
  src ← h !! pCopy;
  let h1 := <[this := {| v_base := Attribute_assign (v_base dst) (v_base src);
                         m_Vector := m_Vector dst |}]> h in
  (* m_Vector = pCopy.vector(); *)
  dst1 ← h1 !! this;
  src1 ← h1 !! pCopy;
  Some (<[this := {| v_base := v_base dst1; m_Vector := vector src1 |}]> h1).

End Templates.

Arguments s_base {ValueType} _.
Arguments m_Value {ValueType} _.
Arguments value {ValueType} _.
Arguments skind {ValueType} _.
Arguments setValue {ValueType} _ _.
Arguments ScalarAttribute_copy {ValueType} _.
Arguments ScalarAttribute_copy_at {ValueType} _ _ _.
Arguments ScalarAttribute_assign_at {ValueType} _ _ _.
Arguments v_base {ValueType} _.
Arguments m_Vector {ValueType} _.
Arguments vector {ValueType} _.
Arguments vkind {ValueType} _.
Arguments VectorAttribute_copy {ValueType} _.
Arguments VectorAttribute_copy_at {ValueType} _ _ _.
Arguments VectorAttribute_assign_at {ValueType} _ _ _.

(** The typedefs at the end of the header, at the payload types that have a
    direct counterpart here. The vector typedefs are written in the header
    with the scalar tags. *)
Definition IntAttr (v : Z) : ScalarAttribute Z := ScalarAttribute_new Z kInteger v.
Definition StringAttr (s : string) : ScalarAttribute string :=
  ScalarAttribute_new string kString s.
Definition IntsAttr (v : list Z) : VectorAttribute Z :=
  VectorAttribute_new Z kInteger v.
Definition StringsAttr (v : list string) : VectorAttribute string :=
  VectorAttribute_new string kString v.

(** Two small object stores, used to run the copy operations. *)
Definition hs0 : gmap addr (ScalarAttribute Z) :=
  {[ 1%positive := IntAttr 7; 2%positive := IntAttr 9 ]}.
Definition hv0 : gmap addr (VectorAttribute Z) :=
  {[ 1%positive := IntsAttr [4; 5]; 2%positive := IntsAttr [] ]}.

End Attributes.

(* ===================================================================== *)
(** ** The source graph, the Compute Graph and AbsLower.cpp *)
(* ===================================================================== *)

(** Modelled from the spec: the read-only view of a source node (an
    [onnx::Node] of the external interchange library): a symbolic operator
    kind, an ordered list of input references and an ordered list of output
    references. A reference ([onnx::Value]) answers [has_unique_name()] and
    [uniqueName()], the two calls AbsLower.cpp makes on it. *)
Module onnx.

Record Value : Type :=
  { has_unique_name : bool; uniqueName : string }.

(** [onnx::Symbol]: interned strings, equal exactly when the strings are. *)
Definition Symbol (s : string) : string := s.

Record Node : Type :=
  { kind : string; inputs : list Value; outputs : list Value }.

End onnx.

Module TensorSel.

(** Operator kinds of the Compute IR that the sources at hand name. *)
Inductive OperatorKind : Type := Abs | HardSigmoid | Softplus.

#[global] Instance OperatorKind_eq_dec : EqDecision OperatorKind.
Proof. solve_decision. Defined.

(** Modelled from the spec: a Value (tensor edge) has a name that is unique
    within one Compute Graph, an element type and a shape. *)
Inductive ElemType : Type := kFloat32 | kInt32 | kInt64.

Record Tensor : Type :=
  { t_name : string; t_elem : ElemType; t_dims : list Z }.

(** Modelled from the spec: a Compute Operator holds an ordered list of
    input Values, an ordered list of output Values and zero or more named
    attributes. Values are owned by the graph; an operator refers to them
    through the graph's name table. *)
Record ComputeOperator : Type :=
  { op_kind : OperatorKind;
    m_Inputs : list string;
    m_Outputs : list string;
    m_Attrs : list (string * Attributes.Attribute) }.

(** Modelled from the spec: the Compute Graph owns the node sequence (in
    insertion order) and the value table (by name). *)
Record ComputeGraph : Type :=
  { cg_nodes : list ComputeOperator;
    cg_values : gmap string Tensor }.

(** A [ComputeOperator*] into a graph is the position of the node. *)
Abbreviation handle := nat.

(** Code that mutates the graph and may dereference a null pointer. *)
Inductive result (A : Type) : Type :=
  | Ok (a : A) (g : ComputeGraph)
  | NullDeref.
Arguments Ok {A} _ _.
Arguments NullDeref {A}.

Definition M (A : Type) : Type := ComputeGraph -> result A.

Definition ret {A} (a : A) : M A := fun g => Ok a g.

Definition bind {A B} (m : M A) (k : A -> M B) : M B :=
  fun g => match m g with
           | Ok a g' => k a g'
           | NullDeref => NullDeref
           end.

Declare Scope lower_scope.
Delimit Scope lower_scope with lower.
Notation "'let*' x ':=' m 'in' k" := (bind m (fun x => k))
  (at level 10, x name, m at level 100, k at level 200) : lower_scope.
Notation "'exec' m 'in' k" := (bind m (fun _ => k))
  (at level 10, m at level 100, k at level 200) : lower_scope.

(** Modelled from the spec: [addOperator<Kind>()] allocates a new node of
    the requested kind, with nothing bound yet, and inserts it at the end
    of the current node sequence. *)
Definition addOperator (k : OperatorKind) : M handle :=
  fun g =>
    Ok (length (cg_nodes g))
       {| cg_nodes := cg_nodes g ++
            [{| op_kind := k; m_Inputs := []; m_Outputs := []; m_Attrs := [] |}];
          cg_values := cg_values g |}.

(** Modelled from the spec: [getValue<Tensor>(name)] resolves a Value by
    name. AbsLower.cpp dereferences the result, so it is a pointer: the
    name of the Value when the table holds it, null otherwise. *)
Definition getValue (pName : string) : M (option string) :=
  fun g => Ok (match cg_values g !! pName with
               | Some _ => Some pName
               | None => None
               end) g.

(** The unary [*] that AbsLower.cpp applies to the pointer. *)
Definition deref {A} (p : option A) : M A :=
  fun g => match p with
           | Some a => Ok a g
           | None => NullDeref
           end.

(** [op->addInput(v)] and [op->addOutput(v)]: append to the operator's
    ordered lists. *)
Definition addInput (op : handle) (v : string) : M unit :=
  fun g =>
    Ok tt {| cg_nodes :=
               alter (fun o => {| op_kind := op_kind o;
                                  m_Inputs := m_Inputs o ++ [v];
                                  m_Outputs := m_Outputs o;
                                  m_Attrs := m_Attrs o |}) op (cg_nodes g);
             cg_values := cg_values g |}.

Definition addOutput (op : handle) (v : string) : M unit :=
  fun g =>
    Ok tt {| cg_nodes :=
               alter (fun o => {| op_kind := op_kind o;
                                  m_Inputs := m_Inputs o;
                                  m_Outputs := m_Outputs o ++ [v];
                                  m_Attrs := m_Attrs o |}) op (cg_nodes g);
             cg_values := cg_values g |}.

(** A range-based [for] whose body has no early exit. *)
Fixpoint for_each {A} (l : list A) (body : A -> M unit) : M unit :=
  match l with
  | [] => ret tt
  | x :: l' => bind (body x) (fun _ => for_each l' body)
  end.

(** Modelled from the spec: the match levels of [Lower], an ordered
    enumeration (NotMe, StandardMatch, CustomMatch). *)
Inductive MatchLevel : Type := kNotMe | kStdLower | kTargetLower.

#[global] Instance MatchLevel_eq_dec : EqDecision MatchLevel.
Proof. solve_decision. Defined.

(** [class AbsLower : public Lower] has no data members. *)
Record AbsLower : Type := { }.

(** [int AbsLower::isMe(const ::onnx::Node& pNode) const] *)
Definition isMe (this : AbsLower) (pNode : onnx.Node) : MatchLevel :=
  if String.eqb (onnx.kind pNode) (onnx.Symbol "Abs")
  then kStdLower
  else kNotMe.

(** What a caller of [isMe] holds: the rule, the probed node and the graph
    under construction. The call passes the first two by const reference. *)
Record LowerWorld : Type :=
  { w_rule : AbsLower; w_node : onnx.Node; w_graph : ComputeGraph }.

Definition call_isMe (w : LowerWorld) : MatchLevel * LowerWorld :=
  (isMe (w_rule w) (w_node w), w).

Local Open Scope lower_scope.

(** [ComputeOperator* AbsLower::activate(ComputeGraph&, ::onnx::Node&) const].
    [None] is the null pointer. *)
Definition activate (this : AbsLower) (pNode : onnx.Node) : M (option handle) :=
  (* check input/output name *)
  if negb (Nat.eqb 1 (length (onnx.inputs pNode))) then ret None
  else if negb (forallb onnx.has_unique_name (onnx.inputs pNode)) then ret None
  else if negb (Nat.eqb 1 (length (onnx.outputs pNode))) then ret None
  else if negb (forallb onnx.has_unique_name (onnx.outputs pNode)) then ret None
  else
    (* create operators *)
    let* op := addOperator Abs in
    (* set input/output *)
    exec for_each (onnx.inputs pNode) (fun xv =>
           let* p := getValue (onnx.uniqueName xv) in
           let* v := deref p in
           addInput op v) in
    exec for_each (onnx.outputs pNode) (fun xv =>
           let* p := getValue (onnx.uniqueName xv) in
           let* v := deref p in
           addOutput op v) in
    ret (Some op).

(** The four checks of [activate], in the order the code makes them. *)
Definition checks (pNode : onnx.Node) : bool :=
  Nat.eqb 1 (length (onnx.inputs pNode))
  && forallb onnx.has_unique_name (onnx.inputs pNode)
  && Nat.eqb 1 (length (onnx.outputs pNode))
  && forallb onnx.has_unique_name (onnx.outputs pNode).

(** The validation failures of [activate], as a proposition. *)
Definition malformed (pNode : onnx.Node) : Prop :=
  length (onnx.inputs pNode) <> 1%nat
  \/ length (onnx.outputs pNode) <> 1%nat
  \/ (exists xv, xv ∈ onnx.inputs pNode ++ onnx.outputs pNode
                 /\ onnx.has_unique_name xv = false).

(** The graph holds a Value for each of the given references. *)
Definition holds_values (g : ComputeGraph) (l : list onnx.Value) : Prop :=
  forall xv, xv ∈ l -> is_Some (cg_values g !! onnx.uniqueName xv).

(** The fully bound Abs node that a successful activation leaves behind. *)
Definition abs_node (i o : string) : ComputeOperator :=
  {| op_kind := Abs; m_Inputs := [i]; m_Outputs := [o]; m_Attrs := [] |}.

Definition named (s : string) : onnx.Value :=
  {| onnx.has_unique_name := true; onnx.uniqueName := s |}.

Definition float_tensor (s : string) : Tensor :=
  {| t_name := s; t_elem := kFloat32; t_dims := [] |}.

(** The Compute Graph of a unit whose Values are declared and whose source
    nodes are still to be lowered: the value table, and no operator yet. *)
Definition declared (vals : gmap string Tensor) : ComputeGraph :=
  {| cg_nodes := []; cg_values := vals |}.

(** Source nodes and graphs to run the rule on. *)
Definition abs_source : onnx.Node :=
  {| onnx.kind := "Abs";
     onnx.inputs := [named "t0"]; onnx.outputs := [named "t1"] |}.

Definition abs_two_inputs : onnx.Node :=
  {| onnx.kind := "Abs";
     onnx.inputs := [named "t0"; named "t1"]; onnx.outputs := [named "t2"] |}.

Definition g_t0_t1 : ComputeGraph :=
  declared {[ "t0"%string := float_tensor "t0"; "t1"%string := float_tensor "t1" ]}.

Definition g_t0_only : ComputeGraph :=
  declared {[ "t0"%string := float_tensor "t0" ]}.

Definition the_rule : AbsLower := Build_AbsLower.

End TensorSel.

(* ===================================================================== *)
(** ** UpdateCtablePass *)
(* ===================================================================== *)

Module UpdatePass.

(** Modelled from the spec: a pass run returns NoChange, GraphChanged or
    Error. The source names [Pass::kModuleChanged]. *)
Inductive ReturnType : Type := kModuleNoChanged | kModuleChanged | kPassFailure.

#[global] Instance ReturnType_eq_dec : EqDecision ReturnType.
Proof. solve_decision. Defined.

Section Visitor.
(** The pass is written against [ComputeOperator] (the type of the
    graph's nodes) and against a visitor bound to the backend; it sees
    neither the concrete operator classes nor what the visitor does.
    [accept node b] is the virtual [node->accept(visitor)]: it may
    rewrite the node it is called on and the backend state reachable
    from the visitor. *)
Variable Operator : Type.
Variable Backend : Type.
Variable accept : Operator -> Backend -> Operator * Backend.

(** The state a run works on: the node sequence of [pCG], the backend
    behind [m_pBackend], and the record of the [accept] calls made so
    far (the position of the node each call was made on). *)
Record RunState : Type :=
  { rs_nodes : list Operator;
    rs_backend : Backend;
    rs_calls : list nat }.

(** The loop body [node->accept(visitor);] with [node] at position [i]. *)
Definition visit_at (st : RunState) (i : nat) : RunState :=
  match rs_nodes st !! i with
  | Some o =>
      let '(o', b') := accept o (rs_backend st) in
      {| rs_nodes := <[i := o']> (rs_nodes st);
         rs_backend := b';
         rs_calls := rs_calls st ++ [i] |}
  | None => st
  end.

(** [Pass::ReturnType UpdateCtablePass::runOnGraphs(xGraph&, ComputeGraph&)]:
    [nEnd] is taken once, then the iterator runs from [begin()] to it. *)
Definition runOnGraphs (st : RunState) : ReturnType * RunState :=
  let nEnd := length (rs_nodes st) in
  let st' := foldl visit_at st (seq 0 nEnd) in
  (kModuleChanged, st').

(** The nodes the recorded calls were made on, read in the graph the run
    started from. *)
Definition visited (st0 st : RunState) : list Operator :=
  omap (fun i => rs_nodes st0 !! i) (rs_calls st).

End Visitor.

Arguments rs_nodes {Operator Backend} _.
Arguments rs_backend {Operator Backend} _.
Arguments rs_calls {Operator Backend} _.
Arguments visit_at {Operator Backend} _ _ _.
Arguments runOnGraphs {Operator Backend} _ _.
Arguments visited {Operator Backend} _ _.

End UpdatePass.

(* ===================================================================== *)
(** ** Statistics.cpp: the counters *)
(* ===================================================================== *)

Module Stats.

(** C++ [int] and [unsigned int], 32 bits wide. *)
Definition to_unsigned (z : Z) : Z := z mod 2 ^ 32.
Definition to_int (z : Z) : Z := (z + 2 ^ 31) mod 2 ^ 32 - 2 ^ 31.
Definition is_int (z : Z) : Prop := - 2 ^ 31 <= z < 2 ^ 31.

(** Modelled from the spec: the statistics store is a hierarchical store
    read and written by name: a group name leads to the entries of the
    group, an entry name to a value. An entry holds a number or a text. *)
Inductive Entry : Type :=
  | EInt (z : Z)
  | EString (s : string).

#[global] Instance Entry_eq_dec : EqDecision Entry.
Proof. solve_decision. Defined.

(** The object behind [global::stats()]. *)
Abbreviation Statistics := (gmap string (gmap string Entry)).

(** Modelled from the spec: [group(name)], the entries of a group. *)
Definition group (gStat : Statistics) (pGroup : string) : gmap string Entry :=
  default ∅ (gStat !! pGroup).

(** Modelled from the spec: [group(g).hasEntry(name)]. *)
Definition hasEntry (gStat : Statistics) (pGroup pName : string) : bool :=
  bool_decide (is_Some (group gStat pGroup !! pName)).

(** Modelled from the spec: [group(g).writeEntry(name, value)] binds the
    name to the value in the group. *)
Definition writeEntry (gStat : Statistics) (pGroup pName : string) (v : Entry)
  : Statistics :=
  <[pGroup := <[pName := v]> (group gStat pGroup)]> gStat.

(** Modelled from the spec: [group(g).readEntry(name, default)] at [int]:
    the number bound to the name, the default when there is none. *)
Definition readEntry (gStat : Statistics) (pGroup pName : string) (pDefault : Z)
  : Z :=
  match group gStat pGroup !! pName with
  | Some (EInt z) => z
  | _ => pDefault
  end.

(** [bool Statistics::addCounter(StringRef pName, StringRef pDesc)] *)
Definition addCounter2 (pName pDesc : string) (gStat : Statistics)
  : bool * Statistics :=
  if hasEntry gStat "Counter" pName then (false, gStat)
  else
    let gStat := writeEntry gStat "Counter" pName (EInt 0) in
    let gStat := writeEntry gStat "Counter_Desc" pName (EString pDesc) in
    (true, gStat).

(** [bool Statistics::addCounter(StringRef pName)] *)
Definition addCounter (pName : string) (gStat : Statistics) : bool * Statistics :=
  let str := "no description"%string in
  addCounter2 pName str gStat.

(** [bool Statistics::increaseCounter(StringRef pName, unsigned int incNumber)]:
    the sum of an [int] and an [unsigned int] is computed at [unsigned int]
    and then stored in an [int]. *)
Definition increaseCounter (pName : string) (incNumber : Z) (gStat : Statistics)
  : bool * Statistics :=
  if negb (hasEntry gStat "Counter" pName) then (false, gStat)
  else
    let entry_value :=
      to_int (to_unsigned (to_unsigned (readEntry gStat "Counter" pName 0)
                           + to_unsigned incNumber)) in
    (true, writeEntry gStat "Counter" pName (EInt entry_value)).

(** [bool Statistics::decreaseCounter(StringRef pName, unsigned int decNumber)] *)
Definition decreaseCounter (pName : string) (decNumber : Z) (gStat : Statistics)
  : bool * Statistics :=
  if negb (hasEntry gStat "Counter" pName) then (false, gStat)
  else
    let entry_value :=
      to_int (to_unsigned (to_unsigned (readEntry gStat "Counter" pName 0)
                           - to_unsigned decNumber)) in
    (true, writeEntry gStat "Counter" pName (EInt entry_value)).

(** [bool Statistics::resetCounter(StringRef pName, int initNum)] *)
Definition resetCounter (pName : string) (initNum : Z) (gStat : Statistics)
  : bool * Statistics :=
  if negb (hasEntry gStat "Counter" pName) then (false, gStat)
  else (true, writeEntry gStat "Counter" pName (EInt initNum)).

(** A store with one counter at the largest [int]. *)
Definition stats0 : Statistics :=
  {[ "Counter"%string := {[ "ops"%string := EInt 2147483647 ]};
     "Counter_Desc"%string := {[ "ops"%string := EString "no description" ]} ]}.

End Stats.

(* ===================================================================== *)
(** ** Further operations of the same files *)
(* ===================================================================== *)

Module AttributesOps.
Import Attributes.

(** [setValue(pValue)] called on the scalar attribute at address [this]. *)
Definition ScalarAttribute_setValue_at {V : Type} (this : addr) (pValue : V)
    (h : gmap addr (ScalarAttribute V)) : option (gmap addr (ScalarAttribute V)) :=
  obj ← h !! this;
  Some (<[this := setValue obj pValue]> h).

(** [vector().push_back(x)] on the vector attribute at address [this]:
    the non-const [vector()] hands out a reference to [m_Vector]. *)
Definition VectorAttribute_push_back_at {V : Type} (this : addr) (x : V)
    (h : gmap addr (VectorAttribute V)) : option (gmap addr (VectorAttribute V)) :=
  obj ← h !! this;
  Some (<[this := {| v_base := v_base obj; m_Vector := m_Vector obj ++ [x] |}]> h).

End AttributesOps.

Module TensorSelOps.
Import TensorSel.

(** Two calls of [activate] in a row on the same graph, as a caller that
    lowers two source nodes makes them. *)
Definition activate_two (this : AbsLower) (n1 n2 : onnx.Node)
  : M (option handle * option handle) :=
  bind (activate this n1) (fun h1 =>
  bind (activate this n2) (fun h2 =>
  ret (h1, h2))).

(** A node with another operator symbol, and a chain of two nodes. *)
Definition relu_source : onnx.Node :=
  {| onnx.kind := "Relu";
     onnx.inputs := [named "t0"]; onnx.outputs := [named "t1"] |}.

Definition abs_second : onnx.Node :=
  {| onnx.kind := "Abs";
     onnx.inputs := [named "t1"]; onnx.outputs := [named "t2"] |}.

Definition g_chain : ComputeGraph :=
  declared {[ "t0"%string := float_tensor "t0";
              "t1"%string := float_tensor "t1";
              "t2"%string := float_tensor "t2" ]}.

End TensorSelOps.

Module UpdatePassRef.

Section Reference.
Variable Operator : Type.
Variable Backend : Type.
Variable accept : Operator -> Backend -> Operator * Backend.

(** The list view of one run: every node is handed to [accept] in order,
    each call seeing the backend as the calls before it left it. *)
Fixpoint visit_all (l : list Operator) (b : Backend)
  : list Operator * Backend :=
  match l with
  | [] => ([], b)
  | o :: l' =>
      let '(o', b') := accept o b in
      let '(l'', b'') := visit_all l' b' in
      (o' :: l'', b'')
  end.

End Reference.

Arguments visit_all {Operator Backend} _ _ _.

End UpdatePassRef.

Module StatsOps.
Import Stats.

(** Modelled from the spec: [group(g).readEntry(name, default)] at a text
    default: the text bound to the name, the default when there is none. *)
Definition readEntry_str (gStat : Statistics) (pGroup pName : string)
    (pDefault : string) : string :=
  match group gStat pGroup !! pName with
  | Some (EString s) => s
  | _ => pDefault
  end.

(** [operator<<] at [int]: the decimal numeral, with a sign when negative. *)
Definition show_int (z : Z) : string :=
  DecimalString.NilZero.string_of_int (Z.to_int z).

(** [std::endl] as the character it writes. *)
Definition endl : string := String (Ascii.ascii_of_nat 10) EmptyString.

(** [void Statistics::printCounter(StringRef pName, OStream& pOS)]: the
    stream is the text written to it so far. *)
Definition printCounter (pName : string) (gStat : Statistics) (pOS : string)
  : string :=
  if negb (hasEntry gStat "Counter" pName) then pOS
  else
    String.append pOS
      (String.append pName
      (String.append ","
      (String.append (show_int (readEntry gStat "Counter" pName 0))
      (String.append ","
      (String.append (readEntry_str gStat "Counter_Desc" pName "no value")
                     endl))))).

(** The store [s] agrees with [gStat] on every entry but the "Counter"
    entry of [pName], and binds the same names. *)
Definition agrees_off_counter (pName : string) (gStat s : Statistics) : Prop :=
  (forall g n, (g, n) <> ("Counter"%string, pName) ->
     group s g !! n = group gStat g !! n)
  /\ (forall g n, hasEntry s g n = hasEntry gStat g n).

End StatsOps.

(** The [Statistics] object of Statistics.cpp: construction, loading,
    validity and reset. *)
Module StatObject.

(** [Statistics::AccessMode]; the source names both values. *)
Inductive AccessMode : Type := kReadOnly | kReadWrite.

#[global] Instance AccessMode_eq_dec : EqDecision AccessMode.
Proof. solve_decision. Defined.

(** [json::Value] as far as Statistics.cpp looks at it: undefined (the
    default-constructed and the cleared value), an object (the store of
    groups), or any other JSON value. *)
Inductive Value : Type :=
  | Undefined
  | Object (o : gmap string (gmap string Stats.Entry))
  | NonObject.

Definition isObject (v : Value) : bool :=
  match v with Object _ => true | _ => false end.

Definition isUndefined (v : Value) : bool :=
  match v with Undefined => true | _ => false end.

(** [m_Value.clear()] *)
Definition clear (v : Value) : Value := Undefined.

(** [m_Value.delegate(object)] with a newly allocated [json::Object]: the
    value becomes that (empty) object. *)
Definition delegate_new_object (v : Value) : Value := Object ∅.

(** [json::Reader::Result]. The source names [kCantOpen] and [kIllegal]
    and treats every other answer alike; [kSuccess] stands for those. *)
Inductive ReaderResult : Type := kCantOpen | kIllegal | kSuccess.

#[global] Instance ReaderResult_eq_dec : EqDecision ReaderResult.
Proof. solve_decision. Defined.

(** The data members. [m_pGroup] is a pointer to a [StatisticsGroup] over
    the object inside [m_Value]; what the code tests is whether it is
    null, so the member is modelled by that bit. *)
Record Statistics : Type :=
  { m_pGroup : bool;
    m_AccessMode : AccessMode;
    m_FilePath : string;
    m_Value : Value }.

(** A diagnostic raised with [error(msg) << arg]. *)
Abbreviation Diag := (string * string)%type.

(** [Statistics::Statistics()] *)
Definition Statistics_new : Statistics :=
  {| m_pGroup := false; m_AccessMode := kReadOnly;
     m_FilePath := ""; m_Value := Undefined |}.

(** [bool Statistics::isValid() const] *)
Definition isValid (this : Statistics) : bool := m_pGroup this.

(** [Statistics::AccessMode Statistics::accessMode() const] *)
Definition accessMode (this : Statistics) : AccessMode := m_AccessMode this.

(** [Statistics& Statistics::reset()] *)
Definition reset (this : Statistics) : Statistics :=
  {| m_pGroup := false; m_AccessMode := kReadOnly;
     m_FilePath := ""; m_Value := clear (m_Value this) |}.

Section Reader.
(** The JSON reader is outside the file: [reader.read(pContent, m_Value)]
    answers whether it could read the text and leaves a value in
    [m_Value]; [reader.parse(m_FilePath, m_Value)] answers a
    [Reader::Result] and leaves a value in [m_Value]. *)
Variable reader_read : string -> Value -> bool * Value.
Variable reader_parse : string -> Value -> ReaderResult * Value.

(** [Statistics& Statistics::read(StringRef pContent)]. A [StringRef]
    without data ([isValid()] false) is [None]. *)
Definition read (pContent : option string) (this : Statistics)
  : Statistics * list Diag :=
  match pContent with
  | Some content =>
      if negb (isValid this) then
        (* m_AccessMode = kReadOnly; m_FilePath.clear(); m_Value.clear(); *)
        let '(ok, v) := reader_read content (clear (m_Value this)) in
        if negb ok || negb (isObject v) then
          ({| m_pGroup := m_pGroup this; m_AccessMode := kReadOnly;
              m_FilePath := ""; m_Value := v |},
           [("can not read json string:"%string, content)])
        else
          (* create group *)
          ({| m_pGroup := true; m_AccessMode := kReadOnly;
              m_FilePath := ""; m_Value := v |}, [])
      else (this, [])
  | None => (this, [])
  end.

(** [Statistics& Statistics::open(const Path& pFilePath, AccessMode pMode)] *)
Definition open (pFilePath : string) (pMode : AccessMode) (this : Statistics)
  : Statistics * list Diag :=
  if negb (isValid this) then
    (* m_AccessMode = pMode; m_FilePath = pFilePath; *)
    let '(result, v) := reader_parse pFilePath (m_Value this) in
    let this1 := {| m_pGroup := m_pGroup this; m_AccessMode := pMode;
                    m_FilePath := pFilePath; m_Value := v |} in
    (* can not open file *)
    if bool_decide (result = kCantOpen) then
      (this1, [("can not open configuration file:"%string, pFilePath)])
    (* illegal format *)
    else if bool_decide (result = kIllegal)
            || (negb (isObject v) && negb (isUndefined v)) then
      (this1, [("can not parse configuration file:"%string, pFilePath)])
    else
      (* empty file *)
      let v' := if isUndefined v then delegate_new_object v else v in
      (* create group *)
      ({| m_pGroup := true; m_AccessMode := pMode;
          m_FilePath := pFilePath; m_Value := v' |}, [])
  else (this, []).

(** [Statistics::Statistics(StringRef pContent)] *)
Definition Statistics_of_StringRef (pContent : option string)
  : Statistics * list Diag :=
  read pContent Statistics_new.

(** [Statistics::Statistics(const std::string& pContent)]: the
    [StringRef] made from a [std::string] always has data. *)
Definition Statistics_of_string (pContent : string) : Statistics * list Diag :=
  read (Some pContent) Statistics_new.

(** [Statistics::Statistics(const char* pContent)]; [None] is [NULL]. *)
Definition Statistics_of_cstr (pContent : option string)
  : Statistics * list Diag :=
  match pContent with
  | None => (Statistics_new, [("can not read NULL json string"%string, ""%string)])
  | Some content => read (Some content) Statistics_new
  end.

(** [Statistics::Statistics(const Path& pFilePath, AccessMode pMode)] *)
Definition Statistics_of_path (pFilePath : string) (pMode : AccessMode)
  : Statistics * list Diag :=
  open pFilePath pMode
    {| m_pGroup := false; m_AccessMode := pMode;
       m_FilePath := pFilePath; m_Value := Undefined |}.

(** The calls a client can make on the object to load or unload it. *)
Inductive Call : Type :=
  | CallRead (pContent : option string)
  | CallOpen (pFilePath : string) (pMode : AccessMode)
  | CallReset.

Definition call (c : Call) (this : Statistics) : Statistics :=
  match c with
  | CallRead pContent => fst (read pContent this)
  | CallOpen pFilePath pMode => fst (open pFilePath pMode this)
  | CallReset => reset this
  end.

Definition calls (cs : list Call) (this : Statistics) : Statistics :=
  foldl (fun s c => call c s) this cs.

End Reader.

Section Files.
(** The file system is outside the file: [is_regular(m_FilePath)], and
    whether the [std::ofstream] on the path [is_open()]. *)
Variable is_regular : string -> bool.
Variable ofs_is_open : string -> bool.

(** [bool Statistics::sync()], which the destructor also runs: the
    answer, and the path of the file that was rewritten with the printed
    value, if one was. *)
Definition sync (this : Statistics) : bool * option string :=
  if bool_decide (kReadWrite = accessMode this) && is_regular (m_FilePath this)
  then
    if negb (ofs_is_open (m_FilePath this)) then (false, None)
    else (true, Some (m_FilePath this))
  else (true, None).

End Files.

(** The group pointer is set only over an object. *)
Definition group_over_object (this : Statistics) : Prop :=
  isValid this = true -> isObject (m_Value this) = true.

(** A reader that accepts the text ["{}"] as the empty object and nothing
    else, and finds no file but ["empty.json"], which holds nothing. *)
Definition toy_read (content : string) (v : Value) : bool * Value :=
  if String.eqb content "{}" then (true, Object ∅) else (false, v).

Definition toy_parse (path : string) (v : Value) : ReaderResult * Value :=
  if String.eqb path "empty.json" then (kSuccess, Undefined) else (kCantOpen, v).

End StatObject.

(* ===================================================================== *)
(** * Properties *)
(* ===================================================================== *)

Module AttributesFacts.
Import Attributes.

Lemma Attribute_assign_kind (this pCopy : Attribute) :
  kind (Attribute_assign this pCopy) = kind pCopy.
Proof. reflexivity. Qed.

Lemma Attribute_copy_kind (pCopy : Attribute) :
  kind (Attribute_copy pCopy) = kind pCopy.
Proof. reflexivity. Qed.

Section Store.
Context {V : Type}.

Lemma scalar_assign_at_spec (h : gmap addr (ScalarAttribute V))
    (this pCopy : addr) (d a : ScalarAttribute V) :
  h !! this = Some d ->
  h !! pCopy = Some a ->
  exists h' d',
    ScalarAttribute_assign_at this pCopy h = Some h'
    /\ h' !! this = Some d'
    /\ skind d' = skind a /\ value d' = value a
    /\ h' !! pCopy = Some a
    /\ (forall p, p <> this -> h' !! p = h !! p).
Proof.
  intros Hd Ha. unfold ScalarAttribute_assign_at.
  rewrite Hd, Ha. simpl.
  rewrite lookup_insert_eq. simpl.
  destruct (decide (this = pCopy)) as [->|Hne].
  - rewrite lookup_insert_eq. simpl.
    assert (d = a) as -> by congruence.
    eexists _, _. split; [reflexivity|].
    rewrite lookup_insert_eq.
    repeat split; try reflexivity.
    + destruct a as [[k] v]. reflexivity.
    + intros p Hp. by rewrite !lookup_insert_ne.
  - rewrite lookup_insert_ne by done. rewrite Ha. simpl.
    eexists _, _. split; [reflexivity|].
    rewrite lookup_insert_eq.
    repeat split; try reflexivity.
    + by rewrite !lookup_insert_ne.
    + intros p Hp. by rewrite !lookup_insert_ne.
Qed.

Lemma scalar_copy_at_spec (h : gmap addr (ScalarAttribute V))
    (fresh pCopy : addr) (a : ScalarAttribute V) :
  h !! fresh = None ->
  h !! pCopy = Some a ->
  exists h' d',
    ScalarAttribute_copy_at fresh pCopy h = Some h'
    /\ h' !! fresh = Some d'
    /\ skind d' = skind a /\ value d' = value a
    /\ h' !! pCopy = Some a
    /\ (forall p, p <> fresh -> h' !! p = h !! p).
Proof.
  intros Hf Ha. unfold ScalarAttribute_copy_at. rewrite Ha. simpl.
  assert (fresh <> pCopy) by congruence.
  eexists _, _. split; [reflexivity|].
  rewrite lookup_insert_eq.
  repeat split; try reflexivity.
  - by rewrite lookup_insert_ne.
  - intros p Hp. by rewrite lookup_insert_ne.
Qed.

Lemma vector_assign_at_spec (h : gmap addr (VectorAttribute V))
    (this pCopy : addr) (d a : VectorAttribute V) :
  h !! this = Some d ->
  h !! pCopy = Some a ->
  exists h' d',
    VectorAttribute_assign_at this pCopy h = Some h'
    /\ h' !! this = Some d'
    /\ vkind d' = vkind a /\ vector d' = vector a
    /\ h' !! pCopy = Some a
    /\ (forall p, p <> this -> h' !! p = h !! p).
Proof.
  intros Hd Ha. unfold VectorAttribute_assign_at.
  rewrite Hd, Ha. simpl.
  rewrite lookup_insert_eq. simpl.
  destruct (decide (this = pCopy)) as [->|Hne].
  - rewrite lookup_insert_eq. simpl.
    assert (d = a) as -> by congruence.
    eexists _, _. split; [reflexivity|].
    rewrite lookup_insert_eq.
    repeat split; try reflexivity.
    + destruct a as [[k] v]. reflexivity.
    + intros p Hp. by rewrite !lookup_insert_ne.
  - rewrite lookup_insert_ne by done. rewrite Ha. simpl.
    eexists _, _. split; [reflexivity|].
    rewrite lookup_insert_eq.
    repeat split; try reflexivity.
    + by rewrite !lookup_insert_ne.
    + intros p Hp. by rewrite !lookup_insert_ne.
Qed.

Lemma vector_copy_at_spec (h : gmap addr (VectorAttribute V))
    (fresh pCopy : addr) (a : VectorAttribute V) :
  h !! fresh = None ->
  h !! pCopy = Some a ->
  exists h' d',
    VectorAttribute_copy_at fresh pCopy h = Some h'
    /\ h' !! fresh = Some d'
    /\ vkind d' = vkind a /\ vector d' = vector a
    /\ h' !! pCopy = Some a
    /\ (forall p, p <> fresh -> h' !! p = h !! p).
Proof.
  intros Hf Ha. unfold VectorAttribute_copy_at. rewrite Ha. simpl.
  assert (fresh <> pCopy) by congruence.
  eexists _, _. split; [reflexivity|].
  rewrite lookup_insert_eq.
  repeat split; try reflexivity.
  - by rewrite lookup_insert_ne.
  - intros p Hp. by rewrite lookup_insert_ne.
Qed.

End Store.

(** C5 (as stated, refuted). The claim says that every operation after
    construction, copy assignment included, leaves [kind()] equal to the
    kind given at construction. [Attribute::operator=] writes [m_Kind]:
    an attribute built with [kFloat] and assigned from one built with
    [kInteger] answers [kInteger]. *)
Lemma C5_assignment_replaces_kind :
  let a := Attribute_new kFloat in
  let b := Attribute_new kInteger in
  kind a = kFloat /\ kind (Attribute_assign a b) <> kFloat.
Proof. simpl. split; [reflexivity | discriminate]. Qed.

(** C5 (amended). The constructor fixes the kind and [setValue] leaves it
    alone; copy assignment replaces the kind by the kind of the source, so
    it preserves [kind()] exactly when the source has the kind the target
    already has. *)
Theorem C5_kind_after_operations :
  (forall k, kind (Attribute_new k) = k)
  /\ (forall this pCopy, kind (Attribute_assign this pCopy) = kind pCopy)
  /\ (forall this pCopy,
        kind (Attribute_assign this pCopy) = kind this <-> kind pCopy = kind this)
  /\ (forall (V : Type) (a : ScalarAttribute V) (v : V),
        skind (setValue a v) = skind a)
  /\ (forall (V : Type) (K : Type_) (v : V),
        skind (ScalarAttribute_new V K v) = K)
  /\ (forall (V : Type) (K : Type_) (l : list V),
        vkind (VectorAttribute_new V K l) = K).
Proof.
  repeat split; try reflexivity.
  - intros Hk. by rewrite Attribute_assign_kind in Hk.
  - intros Hk. by rewrite Attribute_assign_kind.
Qed.

(** C6. For a scalar attribute [a] and a vector attribute [b] living at
    address [pCopy] of their stores: copy construction at a fresh address
    and copy assignment to an existing object (which may be the source
    itself) both yield an attribute with the kind of the source and a
    payload equal to the source's (the scalar value, or the ordered vector),
    and the source reads back unchanged afterwards. *)
Theorem C6_copy_preserves_kind_and_payload {V : Type}
    (hs : gmap addr (ScalarAttribute V)) (hv : gmap addr (VectorAttribute V))
    (this fresh pCopy : addr)
    (a ds : ScalarAttribute V) (b dv : VectorAttribute V) :
  hs !! pCopy = Some a -> hs !! this = Some ds -> hs !! fresh = None ->
  hv !! pCopy = Some b -> hv !! this = Some dv -> hv !! fresh = None ->
  (exists h' d', ScalarAttribute_copy_at fresh pCopy hs = Some h'
      /\ h' !! fresh = Some d'
      /\ skind d' = skind a /\ value d' = value a /\ h' !! pCopy = Some a)
  /\ (exists h' d', ScalarAttribute_assign_at this pCopy hs = Some h'
      /\ h' !! this = Some d'
      /\ skind d' = skind a /\ value d' = value a /\ h' !! pCopy = Some a)
  /\ (exists h' d', VectorAttribute_copy_at fresh pCopy hv = Some h'
      /\ h' !! fresh = Some d'
      /\ vkind d' = vkind b /\ vector d' = vector b /\ h' !! pCopy = Some b)
  /\ (exists h' d', VectorAttribute_assign_at this pCopy hv = Some h'
      /\ h' !! this = Some d'
      /\ vkind d' = vkind b /\ vector d' = vector b /\ h' !! pCopy = Some b).
Proof.
  intros Ha Hds Hfs Hb Hdv Hfv.
  split; [|split; [|split]].
  - destruct (scalar_copy_at_spec hs fresh pCopy a Hfs Ha)
      as (h' & d' & ? & ? & ? & ? & ? & _). eauto 10.
  - destruct (scalar_assign_at_spec hs this pCopy ds a Hds Ha)
      as (h' & d' & ? & ? & ? & ? & ? & _). eauto 10.
  - destruct (vector_copy_at_spec hv fresh pCopy b Hfv Hb)
      as (h' & d' & ? & ? & ? & ? & ? & _). eauto 10.
  - destruct (vector_assign_at_spec hv this pCopy dv b Hdv Hb)
      as (h' & d' & ? & ? & ? & ? & ? & _). eauto 10.
Qed.

(** The copy operations of C6 on the stores [hs0] and [hv0]: source at
    address 1, target at address 2, new object at address 3. *)
Lemma C6_copy_witness :
  (exists h' d', ScalarAttribute_copy_at 3%positive 1%positive hs0 = Some h'
      /\ h' !! 3%positive = Some d'
      /\ skind d' = skind (IntAttr 7) /\ value d' = value (IntAttr 7)
      /\ h' !! 1%positive = Some (IntAttr 7))
  /\ (exists h' d', ScalarAttribute_assign_at 2%positive 1%positive hs0 = Some h'
      /\ h' !! 2%positive = Some d'
      /\ skind d' = skind (IntAttr 7) /\ value d' = value (IntAttr 7)
      /\ h' !! 1%positive = Some (IntAttr 7))
  /\ (exists h' d', VectorAttribute_copy_at 3%positive 1%positive hv0 = Some h'
      /\ h' !! 3%positive = Some d'
      /\ vkind d' = vkind (IntsAttr [4; 5])
      /\ vector d' = vector (IntsAttr [4; 5])
      /\ h' !! 1%positive = Some (IntsAttr [4; 5]))
  /\ (exists h' d', VectorAttribute_assign_at 2%positive 1%positive hv0 = Some h'
      /\ h' !! 2%positive = Some d'
      /\ vkind d' = vkind (IntsAttr [4; 5])
      /\ vector d' = vector (IntsAttr [4; 5])
      /\ h' !! 1%positive = Some (IntsAttr [4; 5])).
Proof.
  apply (C6_copy_preserves_kind_and_payload hs0 hv0 2%positive 3%positive
           1%positive (IntAttr 7) (IntAttr 9)
           (IntsAttr [4; 5]) (IntsAttr []));
    reflexivity.
Defined.

End AttributesFacts.

Module TensorSelFacts.
Import TensorSel.

Lemma forallb_false_elem (l : list onnx.Value) :
  forallb onnx.has_unique_name l = false
  <-> exists xv, xv ∈ l /\ onnx.has_unique_name xv = false.
Proof.
  induction l as [|x l IH]; simpl.
  - split; [discriminate|]. intros (xv & Hin & _). by apply elem_of_nil in Hin.
  - rewrite andb_false_iff, IH. split.
    + intros [Hx|(xv & Hin & Hxv)].
      * exists x. split; [constructor|done].
      * exists xv. split; [by constructor|done].
    + intros (xv & Hin & Hxv). apply elem_of_cons in Hin as [->|Hin]; eauto.
  Qed.

Lemma checks_false_malformed (pNode : onnx.Node) :
  checks pNode = false <-> malformed pNode.
Proof.
  unfold checks, malformed.
  rewrite !andb_false_iff, !forallb_false_elem, !Nat.eqb_neq.
  split.
  - intros [[[Hi|(xv & Hin & Hxv)]|Ho]|(xv & Hin & Hxv)].
    + left. congruence.
    + right; right. exists xv. split; [|done]. apply elem_of_app. by left.
    + right; left. congruence.
    + right; right. exists xv. split; [|done]. apply elem_of_app. by right.
  - intros [Hi|[Ho|(xv & Hin & Hxv)]].
    + left; left; left. congruence.
    + left; right. congruence.
    + apply elem_of_app in Hin as [Hin|Hin].
      * left; left; right. eauto.
      * right. eauto.
Qed.

Lemma activate_checks_false this pNode g :
  checks pNode = false -> activate this pNode g = Ok None g.
Proof.
  unfold checks, activate. intros Hc.
  destruct (Nat.eqb 1 (length (onnx.inputs pNode))); [|reflexivity].
  destruct (forallb onnx.has_unique_name (onnx.inputs pNode)); [|reflexivity].
  destruct (Nat.eqb 1 (length (onnx.outputs pNode))); [|reflexivity].
  destruct (forallb onnx.has_unique_name (onnx.outputs pNode)); [|reflexivity].
  discriminate.
Qed.

(** Past the checks the call either faults or returns the new operator. *)
Lemma activate_checks_true this pNode g :
  checks pNode = true ->
  activate this pNode g = NullDeref
  \/ exists op g', activate this pNode g = Ok (Some op) g'.
Proof.
  unfold checks, activate. intros Hc.
  apply andb_prop in Hc as [Hc H4]. apply andb_prop in Hc as [Hc H3].
  apply andb_prop in Hc as [H1 H2].
  rewrite H1, H2, H3, H4. simpl.
  unfold bind, ret.
  destruct (addOperator Abs g) as [op g1|]; [|by left].
  match goal with |- context [for_each ?l ?b g1] => destruct (for_each l b g1) as [[] g2|] end;
    [|by left].
  match goal with |- context [for_each ?l ?b g2] => destruct (for_each l b g2) as [[] g3|] end;
    [|by left].
  right. eauto.
Qed.

Lemma activate_null_inv this pNode g g' :
  activate this pNode g = Ok None g' -> g' = g /\ malformed pNode.
Proof.
  intros Hact. destruct (checks pNode) eqn:Hc.
  - destruct (activate_checks_true this pNode g Hc) as [Hn|(op & g1 & Hs)];
      congruence.
  - rewrite (activate_checks_false this pNode g Hc) in Hact.
    split; [congruence|]. by apply checks_false_malformed.
Qed.

Lemma alter_last_node (f : ComputeOperator -> ComputeOperator)
    (l : list ComputeOperator) (o : ComputeOperator) :
  alter f (length l) (l ++ [o]) = l ++ [f o].
Proof.
  induction l as [|x l IH]; simpl; [reflexivity|].
  by rewrite <- IH.
Qed.

(** A well-formed node whose two references both resolve in the graph. *)
Lemma activate_bound this pNode g xi xo :
  onnx.inputs pNode = [xi] -> onnx.outputs pNode = [xo] ->
  onnx.has_unique_name xi = true -> onnx.has_unique_name xo = true ->
  is_Some (cg_values g !! onnx.uniqueName xi) ->
  is_Some (cg_values g !! onnx.uniqueName xo) ->
  activate this pNode g =
    Ok (Some (length (cg_nodes g)))
       {| cg_nodes := cg_nodes g
            ++ [abs_node (onnx.uniqueName xi) (onnx.uniqueName xo)];
          cg_values := cg_values g |}.
Proof.
  intros Hi Ho Hni Hno [ti Hti] [to Hto].
  unfold activate. rewrite Hi, Ho. simpl. rewrite Hni, Hno. simpl.
  unfold bind, addOperator, getValue, deref, addInput, addOutput, ret. simpl.
  rewrite Hti. simpl. rewrite Hto. simpl.
  rewrite !alter_last_node. reflexivity.
Qed.

(** A well-formed node whose output reference does not resolve. *)
Lemma activate_unbound_output this pNode g xi xo :
  onnx.inputs pNode = [xi] -> onnx.outputs pNode = [xo] ->
  onnx.has_unique_name xi = true -> onnx.has_unique_name xo = true ->
  cg_values g !! onnx.uniqueName xo = None ->
  activate this pNode g = NullDeref.
Proof.
  intros Hi Ho Hni Hno Hto.
  unfold activate. rewrite Hi, Ho. simpl. rewrite Hni, Hno. simpl.
  unfold bind, addOperator, getValue, deref, addInput, addOutput, ret. simpl.
  destruct (cg_values g !! onnx.uniqueName xi); simpl; [|reflexivity].
  by rewrite Hto.
Qed.

Lemma not_malformed_shape (pNode : onnx.Node) :
  ~ malformed pNode ->
  exists xi xo,
    onnx.inputs pNode = [xi] /\ onnx.outputs pNode = [xo]
    /\ onnx.has_unique_name xi = true /\ onnx.has_unique_name xo = true.
Proof.
  intros Hn.
  destruct (checks pNode) eqn:Hc;
    [|exfalso; by apply Hn, checks_false_malformed].
  unfold checks in Hc.
  apply andb_prop in Hc as [Hc H4]. apply andb_prop in Hc as [Hc H3].
  apply andb_prop in Hc as [H1 H2].
  apply Nat.eqb_eq in H1, H3.
  destruct (onnx.inputs pNode) as [|xi [|? ?]]; try discriminate.
  destruct (onnx.outputs pNode) as [|xo [|? ?]]; try discriminate.
  simpl in H2, H4. rewrite andb_true_r in H2, H4.
  eauto 10.
Qed.

(** C1. Lowering the single source node of kind "Abs" with the one input
    "t0" and the one output "t1" (both carrying their unique names), into
    the graph of a unit that declares "t0" and "t1" as float32 tensors:
    AbsLower claims the node, [activate] returns an operator, and the graph
    then contains exactly one node, of kind Abs, with input list ["t0"],
    output list ["t1"] and no attribute; the value table is as before. *)
Theorem C1_abs_end_to_end (this : AbsLower) (vals : gmap string Tensor)
    (pNode : onnx.Node) (T0 T1 : Tensor) :
  onnx.kind pNode = "Abs"%string ->
  onnx.inputs pNode = [named "t0"] ->
  onnx.outputs pNode = [named "t1"] ->
  vals !! "t0"%string = Some T0 -> t_elem T0 = kFloat32 ->
  vals !! "t1"%string = Some T1 -> t_elem T1 = kFloat32 ->
  isMe this pNode = kStdLower
  /\ exists op g',
       activate this pNode (declared vals) = Ok (Some op) g'
       /\ cg_nodes g' =
            [{| op_kind := Abs; m_Inputs := ["t0"%string];
                m_Outputs := ["t1"%string]; m_Attrs := [] |}]
       /\ cg_nodes g' !! op =
            Some {| op_kind := Abs; m_Inputs := ["t0"%string];
                    m_Outputs := ["t1"%string]; m_Attrs := [] |}
       /\ cg_values g' = vals.
Proof.
  intros Hk Hi Ho H0 _ H1 _. split.
  - unfold isMe. rewrite Hk. reflexivity.
  - eexists _, _. split.
    + apply (activate_bound this pNode (declared vals) (named "t0") (named "t1"));
        simpl; eauto.
    + simpl. repeat split; reflexivity.
Qed.

(** C1 on the node [abs_source] and a table declaring "t0" and "t1". *)
Lemma C1_abs_end_to_end_witness :
  isMe the_rule abs_source = kStdLower
  /\ exists op g',
       activate the_rule abs_source
         (declared {[ "t0"%string := float_tensor "t0";
                      "t1"%string := float_tensor "t1" ]}) = Ok (Some op) g'
       /\ cg_nodes g' =
            [{| op_kind := Abs; m_Inputs := ["t0"%string];
                m_Outputs := ["t1"%string]; m_Attrs := [] |}]
       /\ cg_nodes g' !! op =
            Some {| op_kind := Abs; m_Inputs := ["t0"%string];
                    m_Outputs := ["t1"%string]; m_Attrs := [] |}
       /\ cg_values g' =
            {[ "t0"%string := float_tensor "t0"; "t1"%string := float_tensor "t1" ]}.
Proof.
  apply (C1_abs_end_to_end the_rule _ abs_source
           (float_tensor "t0") (float_tensor "t1")); reflexivity.
Defined.

(** C2 (as stated, refuted). The claim asks only that the graph hold the
    Values of the node's inputs, and promises an operator whenever the
    node is well formed. On the well-formed node Abs("t0") -> "t1" and a
    graph that declares "t0" only, AbsLower claims the node, the inputs
    resolve, no check fails, and [activate] dereferences the null pointer
    that [getValue] gives for "t1": no operator is returned. *)
Lemma C2_unresolved_output_faults :
  isMe the_rule abs_source <> kNotMe
  /\ holds_values g_t0_only (onnx.inputs abs_source)
  /\ ~ malformed abs_source
  /\ activate the_rule abs_source g_t0_only = NullDeref
  /\ ~ (exists op g', activate the_rule abs_source g_t0_only = Ok op g').
Proof.
  assert (Hact : activate the_rule abs_source g_t0_only = NullDeref)
    by reflexivity.
  split; [discriminate|]. split; [|split; [|split]].
  - intros xv Hin. apply list_elem_of_singleton in Hin as ->. by eexists.
  - intros Hm. apply checks_false_malformed in Hm. discriminate.
  - exact Hact.
  - intros (op & g' & Hs). rewrite Hact in Hs. discriminate.
Qed.

(** C2 (amended). For a source node that AbsLower claims and a graph
    that holds Values for each of the node's inputs and outputs:
    [activate] returns null if and only if the input count differs from 1,
    the output count differs from 1, or some input or output lacks a unique
    name; otherwise it returns the operator newly appended to the node
    sequence, an Abs bound to the graph's Values named by the node's input
    and output. *)
Theorem C2_activate_null_iff_malformed (this : AbsLower) (pNode : onnx.Node)
    (g : ComputeGraph) :
  isMe this pNode <> kNotMe ->
  holds_values g (onnx.inputs pNode) ->
  holds_values g (onnx.outputs pNode) ->
  ((exists g', activate this pNode g = Ok None g') <-> malformed pNode)
  /\ (~ malformed pNode ->
      exists xi xo,
        onnx.inputs pNode = [xi] /\ onnx.outputs pNode = [xo]
        /\ is_Some (cg_values g !! onnx.uniqueName xi)
        /\ is_Some (cg_values g !! onnx.uniqueName xo)
        /\ activate this pNode g =
             Ok (Some (length (cg_nodes g)))
                {| cg_nodes := cg_nodes g
                     ++ [{| op_kind := Abs;
                            m_Inputs := [onnx.uniqueName xi];
                            m_Outputs := [onnx.uniqueName xo];
                            m_Attrs := [] |}];
                   cg_values := cg_values g |}).
Proof.
  intros _ Hin Hout. split.
  - split.
    + intros [g' Hact]. by apply activate_null_inv in Hact as [_ ?].
    + intros Hm. exists g. apply activate_checks_false.
      by apply checks_false_malformed.
  - intros Hn.
    destruct (not_malformed_shape pNode Hn) as (xi & xo & Hi & Ho & Hni & Hno).
    assert (Hvi : is_Some (cg_values g !! onnx.uniqueName xi)).
    { apply Hin. rewrite Hi. constructor. }
    assert (Hvo : is_Some (cg_values g !! onnx.uniqueName xo)).
    { apply Hout. rewrite Ho. constructor. }
    exists xi, xo. repeat split; try done.
    by apply activate_bound.
Qed.

(** The amended C2 on [abs_source] and the graph declaring "t0" and "t1". *)
Lemma C2_activate_null_iff_malformed_witness :
  ((exists g', activate the_rule abs_source g_t0_t1 = Ok None g')
   <-> malformed abs_source)
  /\ (~ malformed abs_source ->
      exists xi xo,
        onnx.inputs abs_source = [xi] /\ onnx.outputs abs_source = [xo]
        /\ is_Some (cg_values g_t0_t1 !! onnx.uniqueName xi)
        /\ is_Some (cg_values g_t0_t1 !! onnx.uniqueName xo)
        /\ activate the_rule abs_source g_t0_t1 =
             Ok (Some (length (cg_nodes g_t0_t1)))
                {| cg_nodes := cg_nodes g_t0_t1
                     ++ [{| op_kind := Abs;
                            m_Inputs := [onnx.uniqueName xi];
                            m_Outputs := [onnx.uniqueName xo];
                            m_Attrs := [] |}];
                   cg_values := cg_values g_t0_t1 |}).
Proof.
  apply (C2_activate_null_iff_malformed the_rule abs_source g_t0_t1).
  - discriminate.
  - intros xv Hin. simpl in Hin.
    apply list_elem_of_singleton in Hin as ->. by eexists.
  - intros xv Hin. simpl in Hin.
    apply list_elem_of_singleton in Hin as ->. by eexists.
Defined.

(** C3. Whenever [activate] returns null, the graph after the call is the
    graph before it: the node count and the value count are unchanged, and
    no node or value was inserted. *)
Theorem C3_null_activation_leaves_graph (this : AbsLower) (pNode : onnx.Node)
    (g g' : ComputeGraph) :
  activate this pNode g = Ok None g' ->
  length (cg_nodes g') = length (cg_nodes g)
  /\ size (cg_values g') = size (cg_values g)
  /\ g' = g.
Proof.
  intros Hact. apply activate_null_inv in Hact as [-> _]. done.
Qed.

(** C3 on a node with two inputs: the activation returns null and the
    graph is the one it was given. *)
Lemma C3_null_activation_witness :
  activate the_rule abs_two_inputs g_t0_t1 = Ok None g_t0_t1
  /\ length (cg_nodes g_t0_t1) = length (cg_nodes g_t0_t1)
  /\ size (cg_values g_t0_t1) = size (cg_values g_t0_t1)
  /\ g_t0_t1 = g_t0_t1.
Proof.
  split; [reflexivity|].
  apply (C3_null_activation_leaves_graph the_rule abs_two_inputs g_t0_t1 g_t0_t1).
  reflexivity.
Defined.

(** C4. [isMe] answers the standard match level for a node whose operator
    symbol is "Abs" and NotMe for every other symbol; the two levels
    differ; the answer depends on the symbol alone; and the call leaves
    the rule, the probed node and the graph as they were. *)
Theorem C4_isMe_matches_Abs_only (this : AbsLower) (pNode : onnx.Node) :
  isMe this pNode =
    (if decide (onnx.kind pNode = "Abs"%string) then kStdLower else kNotMe)
  /\ kStdLower <> kNotMe
  /\ (forall (that : AbsLower) (ins outs : list onnx.Value),
        isMe that {| onnx.kind := onnx.kind pNode;
                     onnx.inputs := ins; onnx.outputs := outs |}
        = isMe this pNode)
  /\ (forall g : ComputeGraph,
        call_isMe {| w_rule := this; w_node := pNode; w_graph := g |}
        = (isMe this pNode, {| w_rule := this; w_node := pNode; w_graph := g |})).
Proof.
  split; [|split; [discriminate|split; [reflexivity|reflexivity]]].
  unfold isMe, onnx.Symbol.
  destruct (String.eqb_spec (onnx.kind pNode) "Abs");
    case_decide; congruence.
Qed.

End TensorSelFacts.

Module UpdatePassFacts.
Import UpdatePass UpdatePassRef.

Section Run.
Context {Operator Backend : Type}.
Variable accept : Operator -> Backend -> Operator * Backend.

Lemma visit_at_in_range (st : RunState Operator Backend) (i : nat) :
  (i < length (rs_nodes st))%nat ->
  rs_calls (visit_at accept st i) = rs_calls st ++ [i]
  /\ length (rs_nodes (visit_at accept st i)) = length (rs_nodes st).
Proof.
  intros Hi. unfold visit_at.
  destruct (lookup_lt_is_Some_2 _ _ Hi) as [o Ho]. rewrite Ho.
  destruct (accept o (rs_backend st)) as [o' b']. simpl.
  by rewrite length_insert.
Qed.

(** The iterator walks the positions [a], [a+1], ... below the end. *)
Lemma loop_calls (n a : nat) (st : RunState Operator Backend) :
  (a + n <= length (rs_nodes st))%nat ->
  rs_calls (foldl (visit_at accept) st (seq a n)) = rs_calls st ++ seq a n
  /\ length (rs_nodes (foldl (visit_at accept) st (seq a n)))
     = length (rs_nodes st).
Proof.
  revert a st. induction n as [|n IH]; intros a st Hle; simpl.
  - by rewrite app_nil_r.
  - destruct (visit_at_in_range st a) as [Hc Hl]; [lia|].
    destruct (IH (S a) (visit_at accept st a)) as [Hc' Hl']; [lia|].
    rewrite Hc', Hl', Hc, Hl, <- app_assoc. done.
Qed.

Lemma omap_lookup_seq (l : list Operator) (pre : list Operator) :
  omap (fun i => (pre ++ l) !! i) (seq (length pre) (length l)) = l.
Proof.
  revert pre. induction l as [|x l IH]; intros pre; simpl; [reflexivity|].
  rewrite list_lookup_middle by reflexivity. f_equal.
  specialize (IH (pre ++ [x])).
  rewrite length_app in IH. simpl in IH.
  rewrite Nat.add_1_r, <- app_assoc in IH. exact IH.
Qed.

(** The loop over the positions of [l], started behind the prefix [pre]. *)
Lemma loop_visit_all (l pre : list Operator) (b : Backend) (cs : list nat) :
  rs_nodes (foldl (visit_at accept)
              {| rs_nodes := pre ++ l; rs_backend := b; rs_calls := cs |}
              (seq (length pre) (length l)))
    = pre ++ fst (visit_all accept l b)
  /\ rs_backend (foldl (visit_at accept)
                   {| rs_nodes := pre ++ l; rs_backend := b; rs_calls := cs |}
                   (seq (length pre) (length l)))
     = snd (visit_all accept l b).
Proof.
  revert pre b cs. induction l as [|x l IH]; intros pre b cs; simpl.
  - by rewrite app_nil_r.
  - unfold visit_at at 2 4. simpl.
    rewrite list_lookup_middle by reflexivity.
    destruct (accept x b) as [x' b'] eqn:Hacc.
    destruct (visit_all accept l b') as [l'' b''] eqn:Hrest. simpl.
    rewrite insert_app_r_alt by lia.
    rewrite Nat.sub_diag. simpl.
    specialize (IH (pre ++ [x']) b' (cs ++ [length pre])).
    rewrite length_app, Nat.add_1_r, <- app_assoc in IH. simpl in IH.
    rewrite Hrest in IH. simpl in IH.
    destruct IH as [IHn IHb]. rewrite IHn, IHb.
    by rewrite <- app_assoc.
Qed.

Lemma visit_all_map (f : Operator -> Operator) (l : list Operator) (b : Backend) :
  (forall o b0, accept o b0 = (f o, b0)) ->
  visit_all accept l b = (map f l, b).
Proof.
  intros Hf. induction l as [|x l IH]; simpl; [reflexivity|].
  by rewrite Hf, IH.
Qed.

(** The node that the traversal leaves at position [i] is what [accept]
    returned for the node that stood there, called with the backend as the
    traversal of the nodes before it left it. *)
Lemma visit_all_lookup (l : list Operator) (b : Backend) (i : nat)
    (o : Operator) :
  l !! i = Some o ->
  fst (visit_all accept l b) !! i
  = Some (fst (accept o (snd (visit_all accept (take i l) b)))).
Proof.
  revert b i. induction l as [|x l IH]; intros b i Hi; [done|].
  simpl. destruct (accept x b) as [x' b'] eqn:Hacc.
  destruct i as [|i]; simpl in *.
  - injection Hi as <-. rewrite Hacc.
    by destruct (visit_all accept l b').
  - rewrite Hacc. specialize (IH b' i Hi).
    destruct (visit_all accept l b') as [l'' b''].
    destruct (visit_all accept (take i l) b') as [l3 b3].
    simpl in *. exact IH.
Qed.

End Run.

(** C7. One run of [runOnGraphs], started on a graph with node sequence
    [nodes] and backend [b], invokes [accept] exactly once on every node,
    in insertion order: the calls are made on the positions 0, 1, ... up
    to the end of the sequence, one each; the run leaves at every position
    what the one call of [accept] on the node that stood there returned,
    that call having been made with the backend as the calls on the
    earlier nodes left it; and the backend after the run is the one the
    last call left. The pass is written for an arbitrary operator type and
    an arbitrary [accept], so it cannot inspect the concrete kind of a
    node. *)
Theorem C7_accept_once_per_node_in_order {Operator Backend : Type}
    (accept : Operator -> Backend -> Operator * Backend)
    (nodes : list Operator) (b : Backend) :
  let st := {| rs_nodes := nodes; rs_backend := b; rs_calls := [] |} in
  let st' := snd (runOnGraphs accept st) in
  rs_calls st' = seq 0 (length nodes)
  /\ visited st st' = nodes
  /\ length (rs_nodes st') = length nodes
  /\ (forall i, length (filter (fun j => j = i) (rs_calls st'))
               = if decide (i < length nodes)%nat then 1%nat else 0%nat)
  /\ rs_nodes st' = fst (visit_all accept nodes b)
  /\ rs_backend st' = snd (visit_all accept nodes b)
  /\ (forall i o, nodes !! i = Some o ->
        rs_nodes st' !! i
        = Some (fst (accept o (snd (visit_all accept (take i nodes) b))))).
Proof.
  intros st st'. subst st'. unfold runOnGraphs. simpl.
  destruct (loop_calls accept (length nodes) 0 st) as [Hc Hl]; [simpl; lia|].
  destruct (loop_visit_all accept nodes [] b []) as [Hn Hb].
  simpl in Hc, Hl, Hn, Hb. subst st. rewrite Hc, Hl.
  split; [reflexivity|]. split; [|split; [reflexivity|split]].
  - unfold visited. rewrite Hc. simpl.
    exact (omap_lookup_seq nodes []).
  - intros i. generalize (length nodes) as n. intros n.
    induction n as [|n IH]; [by case_decide; [lia|]|].
    rewrite seq_S, filter_app, length_app, IH. simpl.
    rewrite filter_cons, filter_nil.
    repeat case_decide; simpl; lia.
  - rewrite Hn, Hb. split; [reflexivity|]. split; [reflexivity|].
    intros i o Hi. by apply visit_all_lookup.
Qed.

(** C8 (as stated, refuted). The claim says that [runOnGraphs] returns
    GraphChanged only for runs that modified the graph and NoChange for
    runs that modified nothing. On the empty graph no node is visited,
    the graph and the backend are as before, and the run still returns
    [kModuleChanged]. *)
Lemma C8_reports_change_on_untouched_graph :
  let st := {| rs_nodes := @nil unit; rs_backend := tt; rs_calls := [] |} in
  let run := runOnGraphs (fun o b => (o, b)) st in
  snd run = st /\ fst run = kModuleChanged /\ fst run <> kModuleNoChanged.
Proof. simpl. split; [reflexivity|]. split; [reflexivity|discriminate]. Qed.

(** C8 (amended). Every run of [runOnGraphs] returns a value of the
    tri-state result type, and that value is GraphChanged on every run,
    whether or not a node was modified; it is never NoChange or Error. *)
Theorem C8_always_reports_change {Operator Backend : Type}
    (accept : Operator -> Backend -> Operator * Backend)
    (st : RunState Operator Backend) :
  fst (runOnGraphs accept st) = kModuleChanged
  /\ fst (runOnGraphs accept st) <> kModuleNoChanged
  /\ fst (runOnGraphs accept st) <> kPassFailure.
Proof. simpl. split; [reflexivity|]. split; discriminate. Qed.

End UpdatePassFacts.

Module StatsFacts.
Import Stats.

Lemma group_writeEntry (gStat : Statistics) (g n : string) (v : Entry)
    (g' n' : string) :
  group (writeEntry gStat g n v) g' !! n' =
    if decide (g = g' /\ n = n') then Some v else group gStat g' !! n'.
Proof.
  unfold writeEntry, group.
  destruct (decide (g = g')) as [->|Hg].
  - rewrite lookup_insert_eq. simpl.
    destruct (decide (n = n')) as [->|Hn].
    + rewrite lookup_insert_eq. by rewrite decide_True.
    + rewrite lookup_insert_ne by done.
      case_decide as Hd; [by destruct Hd|done].
  - rewrite lookup_insert_ne by done.
    case_decide as Hd; [by destruct Hd|done].
Qed.

Lemma hasEntry_true (gStat : Statistics) (g n : string) :
  hasEntry gStat g n = true <-> is_Some (group gStat g !! n).
Proof. unfold hasEntry. by rewrite bool_decide_eq_true. Qed.

Lemma hasEntry_false (gStat : Statistics) (g n : string) :
  hasEntry gStat g n = false <-> group gStat g !! n = None.
Proof.
  unfold hasEntry. rewrite bool_decide_eq_false. symmetry. apply eq_None_not_Some.
Qed.

(** Writing back what a group already binds leaves the store as it is. *)
Lemma writeEntry_id (gStat : Statistics) (g n : string) (v : Entry) :
  group gStat g !! n = Some v -> writeEntry gStat g n v = gStat.
Proof.
  unfold writeEntry, group. intros Hv.
  destruct (gStat !! g) as [m|] eqn:Hg; simpl in *.
  - rewrite (insert_id m n v Hv). by apply insert_id.
  - by rewrite lookup_empty in Hv.
Qed.

Lemma writeEntry_twice (gStat : Statistics) (g n : string) (v w : Entry) :
  writeEntry (writeEntry gStat g n v) g n w = writeEntry gStat g n w.
Proof.
  unfold writeEntry, group.
  rewrite lookup_insert_eq. simpl.
  by rewrite insert_insert_eq, insert_insert_eq.
Qed.

(** [int] to [unsigned int], add and subtract the same amount modulo 2^32,
    back to [int]. *)
Lemma wrap_round_trip (v n : Z) :
  is_int v ->
  to_int (to_unsigned
            (to_unsigned
               (to_int (to_unsigned (to_unsigned v + to_unsigned n)))
             - to_unsigned n)) = v.
Proof.
  unfold is_int, to_int, to_unsigned.
  change (2 ^ 32) with 4294967296. change (2 ^ 31) with 2147483648.
  intros Hv. Z.div_mod_to_equations. lia.
Qed.

Lemma to_int_is_int (z : Z) : is_int (to_int z).
Proof.
  unfold is_int, to_int.
  change (2 ^ 32) with 4294967296. change (2 ^ 31) with 2147483648.
  Z.div_mod_to_equations. lia.
Qed.

Example addCounter_fresh :
  addCounter "ops" ∅ =
    (true, {[ "Counter"%string := {[ "ops"%string := EInt 0 ]};
              "Counter_Desc"%string :=
                {[ "ops"%string := EString "no description" ]} ]}).
Proof. by vm_compute. Qed.

Example addCounter_again : addCounter "ops" stats0 = (false, stats0).
Proof. reflexivity. Qed.

Example increase_wraps :
  fst (increaseCounter "ops" 1 stats0) = true
  /\ readEntry (snd (increaseCounter "ops" 1 stats0)) "Counter" "ops" 0
     = -2147483648.
Proof. by vm_compute. Qed.

(** C9. When a "Counter" entry with the name exists, [addCounter] (with or
    without a description) returns false and the store is as before. When
    there is none, it returns true, and afterwards the "Counter" entry of
    the name holds 0, the "Counter_Desc" entry of the name holds the
    description (the text "no description" for the one-argument form), and
    every entry under another name or in another group is as before. *)
Theorem C9_addCounter (pName pDesc : string) (gStat : Statistics) :
  match group gStat "Counter" !! pName with
  | Some _ =>
      addCounter2 pName pDesc gStat = (false, gStat)
      /\ addCounter pName gStat = (false, gStat)
  | None =>
      (exists gStat',
          addCounter2 pName pDesc gStat = (true, gStat')
          /\ group gStat' "Counter" !! pName = Some (EInt 0)
          /\ group gStat' "Counter_Desc" !! pName = Some (EString pDesc)
          /\ (forall g n,
                n <> pName \/ (g <> "Counter"%string /\ g <> "Counter_Desc"%string) ->
                group gStat' g !! n = group gStat g !! n))
      /\ (exists gStat',
          addCounter pName gStat = (true, gStat')
          /\ group gStat' "Counter" !! pName = Some (EInt 0)
          /\ group gStat' "Counter_Desc" !! pName
             = Some (EString "no description"))
  end.
Proof.
  assert (Hnew : forall d,
    group gStat "Counter" !! pName = None ->
    exists gStat',
      addCounter2 pName d gStat = (true, gStat')
      /\ group gStat' "Counter" !! pName = Some (EInt 0)
      /\ group gStat' "Counter_Desc" !! pName = Some (EString d)
      /\ (forall g n,
            n <> pName \/ (g <> "Counter"%string /\ g <> "Counter_Desc"%string) ->
            group gStat' g !! n = group gStat g !! n)).
  { intros d Hnone. unfold addCounter2.
    rewrite (proj2 (hasEntry_false gStat "Counter" pName) Hnone).
    eexists. split; [reflexivity|].
    rewrite !group_writeEntry. split; [|split].
    - rewrite decide_False by (intros [? _]; discriminate).
      by rewrite decide_True.
    - by rewrite decide_True.
    - intros g n Hother. rewrite !group_writeEntry.
      destruct Hother as [Hn|[Hg1 Hg2]];
        repeat case_decide; try done; destruct_and?; congruence. }
  destruct (group gStat "Counter" !! pName) as [e|] eqn:Hlook.
  - assert (Hhas : hasEntry gStat "Counter" pName = true)
      by (apply hasEntry_true; eauto).
    unfold addCounter, addCounter2. by rewrite Hhas.
  - split.
    + by apply Hnew.
    + destruct (Hnew "no description"%string eq_refl)
        as (gStat' & Hadd & Hc & Hd & _).
      exists gStat'. by repeat split.
Qed.

(** On a name without a "Counter" entry both operations return false and
    leave the store as it is; nothing about the other counters is needed. *)
Lemma absent_counter_untouched (qName : string) (n : Z) (gStat : Statistics) :
  group gStat "Counter" !! qName = None ->
  increaseCounter qName n gStat = (false, gStat)
  /\ decreaseCounter qName n gStat = (false, gStat).
Proof.
  intros Hq. unfold increaseCounter, decreaseCounter.
  by rewrite (proj2 (hasEntry_false gStat "Counter" qName) Hq).
Qed.



End StatsFacts.


(* ===================================================================== *)
(** * Further properties *)
(* ===================================================================== *)

Module AttributesMore.
Import Attributes AttributesOps.

Lemma scalar_rebuild {V : Type} (a : ScalarAttribute V) :
  {| s_base := Attribute_assign (s_base a) (s_base a); m_Value := value a |} = a.
Proof. destruct a as [[k] v]. reflexivity. Qed.

Lemma vector_rebuild {V : Type} (b : VectorAttribute V) :
  {| v_base := Attribute_assign (v_base b) (v_base b); m_Vector := vector b |} = b.
Proof. destruct b as [[k] l]. reflexivity. Qed.

Lemma scalar_assign_at_overwrites {V : Type} (h : gmap addr (ScalarAttribute V))
    (this pCopy : addr) (d a : ScalarAttribute V) :
  h !! this = Some d -> h !! pCopy = Some a ->
  ScalarAttribute_assign_at this pCopy h = Some (<[this := a]> h).
Proof.
  intros Hd Ha. unfold ScalarAttribute_assign_at.
  rewrite Hd, Ha. simpl. rewrite lookup_insert_eq. simpl.
  destruct (decide (this = pCopy)) as [->|Hne].
  - rewrite lookup_insert_eq. simpl. rewrite insert_insert_eq.
    assert (d = a) as -> by congruence.
    do 2 f_equal. apply scalar_rebuild.
  - rewrite lookup_insert_ne by done. rewrite Ha. simpl.
    rewrite insert_insert_eq. do 2 f_equal.
    destruct a as [[k] v]. reflexivity.
Qed.

Lemma vector_assign_at_overwrites {V : Type} (h : gmap addr (VectorAttribute V))
    (this pCopy : addr) (d b : VectorAttribute V) :
  h !! this = Some d -> h !! pCopy = Some b ->
  VectorAttribute_assign_at this pCopy h = Some (<[this := b]> h).
Proof.
  intros Hd Hb. unfold VectorAttribute_assign_at.
  rewrite Hd, Hb. simpl. rewrite lookup_insert_eq. simpl.
  destruct (decide (this = pCopy)) as [->|Hne].
  - rewrite lookup_insert_eq. simpl. rewrite insert_insert_eq.
    assert (d = b) as -> by congruence.
    do 2 f_equal. apply vector_rebuild.
  - rewrite lookup_insert_ne by done. rewrite Hb. simpl.
    rewrite insert_insert_eq. do 2 f_equal.
    destruct b as [[k] l]. reflexivity.
Qed.

(** X1. Copy assignment between two live attributes makes the target the
    same object value as the source (kind and payload) and changes no
    other object of the store; assigning an attribute to itself leaves the
    whole store as it is. This holds for scalar and for vector attributes. *)
Theorem X1_assignment_overwrites_target_only {V : Type}
    (hs : gmap addr (ScalarAttribute V)) (hv : gmap addr (VectorAttribute V))
    (this pCopy : addr)
    (a ds : ScalarAttribute V) (b dv : VectorAttribute V) :
  hs !! pCopy = Some a -> hs !! this = Some ds ->
  hv !! pCopy = Some b -> hv !! this = Some dv ->
  ScalarAttribute_assign_at this pCopy hs = Some (<[this := a]> hs)
  /\ ScalarAttribute_assign_at pCopy pCopy hs = Some hs
  /\ VectorAttribute_assign_at this pCopy hv = Some (<[this := b]> hv)
  /\ VectorAttribute_assign_at pCopy pCopy hv = Some hv.
Proof.
  intros Ha Hds Hb Hdv. repeat split.
  - by apply (scalar_assign_at_overwrites hs this pCopy ds a).
  - rewrite (scalar_assign_at_overwrites hs pCopy pCopy a a) by done.
    f_equal. by apply insert_id.
  - by apply (vector_assign_at_overwrites hv this pCopy dv b).
  - rewrite (vector_assign_at_overwrites hv pCopy pCopy b b) by done.
    f_equal. by apply insert_id.
Qed.

(** X1 on the stores [hs0] and [hv0]: target at address 2, source at 1. *)
Lemma X1_assignment_witness :
  ScalarAttribute_assign_at 2%positive 1%positive hs0
    = Some (<[2%positive := IntAttr 7]> hs0)
  /\ ScalarAttribute_assign_at 1%positive 1%positive hs0 = Some hs0
  /\ VectorAttribute_assign_at 2%positive 1%positive hv0
     = Some (<[2%positive := IntsAttr [4; 5]]> hv0)
  /\ VectorAttribute_assign_at 1%positive 1%positive hv0 = Some hv0.
Proof.
  apply (X1_assignment_overwrites_target_only hs0 hv0 2%positive 1%positive
           (IntAttr 7) (IntAttr 9) (IntsAttr [4; 5]) (IntsAttr []));
    reflexivity.
Defined.

(** X2. A copy does not share its payload with the original: after copy
    construction at a fresh address, [setValue] on the copy (or
    [push_back] through [vector()] of a copied vector attribute) changes
    the copy only; the original still holds its kind and payload, and the
    copy keeps the kind it took from the original. *)
Theorem X2_copy_is_independent {V : Type}
    (hs : gmap addr (ScalarAttribute V)) (hv : gmap addr (VectorAttribute V))
    (fresh pCopy : addr) (a : ScalarAttribute V) (b : VectorAttribute V)
    (v x : V) :
  hs !! pCopy = Some a -> hs !! fresh = None ->
  hv !! pCopy = Some b -> hv !! fresh = None ->
  (exists h1 h2,
      ScalarAttribute_copy_at fresh pCopy hs = Some h1
      /\ ScalarAttribute_setValue_at fresh v h1 = Some h2
      /\ h2 !! pCopy = Some a
      /\ value <$> h2 !! fresh = Some v
      /\ skind <$> h2 !! fresh = Some (skind a)
      /\ (forall p, p <> fresh -> h2 !! p = hs !! p))
  /\ (exists h1 h2,
      VectorAttribute_copy_at fresh pCopy hv = Some h1
      /\ VectorAttribute_push_back_at fresh x h1 = Some h2
      /\ h2 !! pCopy = Some b
      /\ vector <$> h2 !! fresh = Some (vector b ++ [x])
      /\ vkind <$> h2 !! fresh = Some (vkind b)
      /\ (forall p, p <> fresh -> h2 !! p = hv !! p)).
Proof.
  intros Ha Hfs Hb Hfv.
  assert (fresh <> pCopy) by congruence.
  split.
  - unfold ScalarAttribute_copy_at, ScalarAttribute_setValue_at.
    rewrite Ha. simpl. eexists _, _. split; [reflexivity|].
    rewrite lookup_insert_eq. simpl. split; [reflexivity|].
    rewrite insert_insert_eq, lookup_insert_eq.
    repeat split.
    + by rewrite lookup_insert_ne.
    + intros p Hp. by rewrite lookup_insert_ne.
  - unfold VectorAttribute_copy_at, VectorAttribute_push_back_at.
    rewrite Hb. simpl. eexists _, _. split; [reflexivity|].
    rewrite lookup_insert_eq. simpl. split; [reflexivity|].
    rewrite insert_insert_eq, lookup_insert_eq.
    repeat split.
    + by rewrite lookup_insert_ne.
    + intros p Hp. by rewrite lookup_insert_ne.
Qed.

(** X2 on [hs0] and [hv0]: source at address 1, copy at address 3. *)
Lemma X2_copy_witness :
  (exists h1 h2,
      ScalarAttribute_copy_at 3%positive 1%positive hs0 = Some h1
      /\ ScalarAttribute_setValue_at 3%positive 8 h1 = Some h2
      /\ h2 !! 1%positive = Some (IntAttr 7)
      /\ value <$> h2 !! 3%positive = Some 8
      /\ skind <$> h2 !! 3%positive = Some (skind (IntAttr 7))
      /\ (forall p, p <> 3%positive -> h2 !! p = hs0 !! p))
  /\ (exists h1 h2,
      VectorAttribute_copy_at 3%positive 1%positive hv0 = Some h1
      /\ VectorAttribute_push_back_at 3%positive 6 h1 = Some h2
      /\ h2 !! 1%positive = Some (IntsAttr [4; 5])
      /\ vector <$> h2 !! 3%positive = Some (vector (IntsAttr [4; 5]) ++ [6])
      /\ vkind <$> h2 !! 3%positive = Some (vkind (IntsAttr [4; 5]))
      /\ (forall p, p <> 3%positive -> h2 !! p = hv0 !! p)).
Proof.
  apply (X2_copy_is_independent hs0 hv0 3%positive 1%positive
           (IntAttr 7) (IntsAttr [4; 5]) 8 6); reflexivity.
Defined.

(** The vector typedefs of the header are instantiated with the
    scalar tags: an [IntsAttr] answers the same [kind()] as an [IntAttr],
    a [StringsAttr] the same as a [StringAttr], and neither answers one of
    the [...Vec] kinds, whatever the payloads are. *)
Remark vector_typedefs_carry_scalar_tags (i : Z) (s : string)
    (li : list Z) (ls : list string) :
  vkind (IntsAttr li) = skind (IntAttr i)
  /\ vkind (StringsAttr ls) = skind (StringAttr s)
  /\ vkind (IntsAttr li) <> kIntegerVec
  /\ vkind (StringsAttr ls) <> kStringVec.
Proof. repeat split; discriminate. Qed.

End AttributesMore.

Module TensorSelMore.
Import TensorSel TensorSelOps TensorSelFacts.

(** A well-formed node whose input reference does not resolve. *)
Lemma activate_unbound_input this pNode g xi xo :
  onnx.inputs pNode = [xi] -> onnx.outputs pNode = [xo] ->
  onnx.has_unique_name xi = true -> onnx.has_unique_name xo = true ->
  cg_values g !! onnx.uniqueName xi = None ->
  activate this pNode g = NullDeref.
Proof.
  intros Hi Ho Hni Hno Hti.
  unfold activate. rewrite Hi, Ho. simpl. rewrite Hni, Hno. simpl.
  unfold bind, addOperator, getValue, deref, addInput, addOutput, ret. simpl.
  by rewrite Hti.
Qed.

Lemma holds_values_singleton (g : ComputeGraph) (xv : onnx.Value) :
  holds_values g [xv] <-> is_Some (cg_values g !! onnx.uniqueName xv).
Proof.
  unfold holds_values. split.
  - intros Hh. apply Hh. constructor.
  - intros Hs xv' Hin. by apply list_elem_of_singleton in Hin as ->.
Qed.

(** The three outcomes of [activate], by the node and the value table. *)
Lemma activate_outcome this pNode g :
  (malformed pNode /\ activate this pNode g = Ok None g)
  \/ (~ malformed pNode
      /\ holds_values g (onnx.inputs pNode)
      /\ holds_values g (onnx.outputs pNode)
      /\ exists xi xo,
           onnx.inputs pNode = [xi] /\ onnx.outputs pNode = [xo]
           /\ activate this pNode g =
                Ok (Some (length (cg_nodes g)))
                   {| cg_nodes := cg_nodes g
                        ++ [abs_node (onnx.uniqueName xi) (onnx.uniqueName xo)];
                      cg_values := cg_values g |})
  \/ (~ malformed pNode
      /\ ~ (holds_values g (onnx.inputs pNode)
            /\ holds_values g (onnx.outputs pNode))
      /\ activate this pNode g = NullDeref).
Proof.
  destruct (checks pNode) eqn:Hc.
  - assert (Hn : ~ malformed pNode).
    { intros Hm. apply checks_false_malformed in Hm. congruence. }
    destruct (not_malformed_shape pNode Hn) as (xi & xo & Hi & Ho & Hni & Hno).
    right. rewrite Hi, Ho, !holds_values_singleton.
    destruct (cg_values g !! onnx.uniqueName xi) as [ti|] eqn:Hti.
    + destruct (cg_values g !! onnx.uniqueName xo) as [to|] eqn:Hto.
      * left. split; [done|]. split; [by eexists|]. split; [by eexists|].
        exists xi, xo. split; [done|]. split; [done|].
        apply activate_bound; try done; rewrite ?Hti, ?Hto; by eexists.
      * right. split; [done|]. split.
        -- intros [_ [? ?]]. discriminate.
        -- by apply (activate_unbound_output this pNode g xi xo).
    + right. split; [done|]. split.
      * intros [[? ?] _]. discriminate.
      * by apply (activate_unbound_input this pNode g xi xo).
  - left. split; [by apply checks_false_malformed|].
    by apply activate_checks_false.
Qed.

(** X4. [activate] dereferences a null pointer exactly when the node passes
    the four checks and one of its references has no Value in the graph;
    it returns an operator exactly when the node passes the checks and all
    its references resolve. A malformed node never faults and an
    unresolved reference never yields the null result. *)
Theorem X4_activate_outcomes (this : AbsLower) (pNode : onnx.Node)
    (g : ComputeGraph) :
  (activate this pNode g = NullDeref
   <-> ~ malformed pNode
       /\ ~ (holds_values g (onnx.inputs pNode)
             /\ holds_values g (onnx.outputs pNode)))
  /\ ((exists op g', activate this pNode g = Ok (Some op) g')
      <-> ~ malformed pNode
          /\ holds_values g (onnx.inputs pNode)
          /\ holds_values g (onnx.outputs pNode)).
Proof.
  destruct (activate_outcome this pNode g)
    as [[Hm Hact]|[(Hn & Hi & Ho & xi & xo & _ & _ & Hact)|(Hn & Hu & Hact)]];
    rewrite Hact; split; split;
    try discriminate; try tauto.
  - intros (op & g' & Heq). discriminate.
  - intros _. eauto.
  - intros (op & g' & Heq). discriminate.
Qed.

(** X5. Whatever [activate] returns, it leaves the value table as it was
    and every node already in the graph at its position. A null result
    adds no node; a non-null result adds exactly one node, at the end, and
    the returned handle is its position: an Abs operator with one input,
    one output and no attribute. *)
Theorem X5_activate_only_appends (this : AbsLower) (pNode : onnx.Node)
    (g g' : ComputeGraph) (r : option handle) :
  activate this pNode g = Ok r g' ->
  cg_values g' = cg_values g
  /\ (forall i o, cg_nodes g !! i = Some o -> cg_nodes g' !! i = Some o)
  /\ length (cg_nodes g') =
       (length (cg_nodes g) + match r with Some _ => 1 | None => 0 end)%nat
  /\ match r with
     | None => True
     | Some op =>
         op = length (cg_nodes g)
         /\ exists o, cg_nodes g' !! op = Some o
              /\ op_kind o = Abs
              /\ length (m_Inputs o) = 1%nat
              /\ length (m_Outputs o) = 1%nat
              /\ m_Attrs o = []
     end.
Proof.
  intros Hact.
  destruct (activate_outcome this pNode g)
    as [[Hm Hact']|[(Hn & Hi & Ho & xi & xo & _ & _ & Hact')|(Hn & Hu & Hact')]];
    rewrite Hact' in Hact; [| |discriminate].
  - injection Hact as <- <-. repeat split; [done|lia].
  - injection Hact as <- <-. simpl. repeat split.
    + intros i o Hio. by apply lookup_app_l_Some.
    + by rewrite length_app.
    + eexists. split; [apply list_lookup_middle; reflexivity|]. done.
Qed.

(** X5 on the node [abs_source] and the graph declaring "t0" and "t1". *)
Lemma X5_activate_only_appends_witness :
  cg_values {| cg_nodes := [abs_node "t0" "t1"];
               cg_values := cg_values g_t0_t1 |} = cg_values g_t0_t1
  /\ (forall i o, cg_nodes g_t0_t1 !! i = Some o ->
        cg_nodes {| cg_nodes := [abs_node "t0" "t1"];
                    cg_values := cg_values g_t0_t1 |} !! i = Some o)
  /\ length (cg_nodes {| cg_nodes := [abs_node "t0" "t1"];
                         cg_values := cg_values g_t0_t1 |}) =
       (length (cg_nodes g_t0_t1) + 1)%nat
  /\ (0%nat = length (cg_nodes g_t0_t1)
      /\ exists o, cg_nodes {| cg_nodes := [abs_node "t0" "t1"];
                               cg_values := cg_values g_t0_t1 |} !! 0%nat = Some o
           /\ op_kind o = Abs
           /\ length (m_Inputs o) = 1%nat
           /\ length (m_Outputs o) = 1%nat
           /\ m_Attrs o = []).
Proof.
  apply (X5_activate_only_appends the_rule abs_source g_t0_t1
           {| cg_nodes := [abs_node "t0" "t1"];
              cg_values := cg_values g_t0_t1 |} (Some 0%nat)).
  reflexivity.
Defined.

(** X6. [activate] never looks at the operator symbol: two nodes with the
    same inputs and outputs are activated alike, whatever their kinds, so
    a node that [isMe] rejects is still lowered to an Abs operator when
    [activate] is called on it. *)
Theorem X6_activate_ignores_kind (this : AbsLower) (n1 n2 : onnx.Node)
    (g : ComputeGraph) :
  onnx.inputs n1 = onnx.inputs n2 ->
  onnx.outputs n1 = onnx.outputs n2 ->
  activate this n1 g = activate this n2 g.
Proof. intros Hi Ho. unfold activate. by rewrite Hi, Ho. Qed.

(** X6 on a "Relu" node: [isMe] answers NotMe, [activate] appends an Abs. *)
Lemma X6_activate_ignores_kind_witness :
  isMe the_rule relu_source = kNotMe
  /\ activate the_rule relu_source g_t0_t1
     = Ok (Some 0%nat) {| cg_nodes := [abs_node "t0" "t1"];
                          cg_values := cg_values g_t0_t1 |}
  /\ activate the_rule relu_source g_t0_t1
     = activate the_rule abs_source g_t0_t1.
Proof.
  split; [reflexivity|]. split; [reflexivity|].
  apply (X6_activate_ignores_kind the_rule relu_source abs_source g_t0_t1);
    reflexivity.
Defined.

(** X7. Two activations in a row, on well-formed nodes whose references
    all resolve, append two Abs operators in call order: the handles are
    the two consecutive positions after the nodes the graph had, the second
    call leaves the first operator as the first call bound it, and the
    value table is unchanged. *)
Theorem X7_two_activations_append_in_order (this : AbsLower)
    (n1 n2 : onnx.Node) (g : ComputeGraph) (a1 b1 a2 b2 : onnx.Value) :
  onnx.inputs n1 = [a1] -> onnx.outputs n1 = [b1] ->
  onnx.inputs n2 = [a2] -> onnx.outputs n2 = [b2] ->
  onnx.has_unique_name a1 = true -> onnx.has_unique_name b1 = true ->
  onnx.has_unique_name a2 = true -> onnx.has_unique_name b2 = true ->
  holds_values g [a1; b1; a2; b2] ->
  activate_two this n1 n2 g =
    Ok (Some (length (cg_nodes g)), Some (S (length (cg_nodes g))))
       {| cg_nodes := cg_nodes g
            ++ [abs_node (onnx.uniqueName a1) (onnx.uniqueName b1);
                abs_node (onnx.uniqueName a2) (onnx.uniqueName b2)];
          cg_values := cg_values g |}.
Proof.
  intros Hi1 Ho1 Hi2 Ho2 Ha1 Hb1 Ha2 Hb2 Hh.
  assert (Hva1 : is_Some (cg_values g !! onnx.uniqueName a1))
    by (apply Hh; set_solver).
  assert (Hvb1 : is_Some (cg_values g !! onnx.uniqueName b1))
    by (apply Hh; set_solver).
  assert (Hva2 : is_Some (cg_values g !! onnx.uniqueName a2))
    by (apply Hh; set_solver).
  assert (Hvb2 : is_Some (cg_values g !! onnx.uniqueName b2))
    by (apply Hh; set_solver).
  unfold activate_two, bind.
  rewrite (activate_bound this n1 g a1 b1) by done.
  rewrite (activate_bound this n2 _ a2 b2) by done.
  unfold ret. simpl. rewrite length_app, Nat.add_1_r, <- app_assoc. reflexivity.
Qed.

(** X7 on the chain "t0" -> "t1" -> "t2". *)
Lemma X7_two_activations_witness :
  activate_two the_rule abs_source abs_second g_chain =
    Ok (Some (length (cg_nodes g_chain)), Some (S (length (cg_nodes g_chain))))
       {| cg_nodes := cg_nodes g_chain
            ++ [abs_node (onnx.uniqueName (named "t0"))
                         (onnx.uniqueName (named "t1"));
                abs_node (onnx.uniqueName (named "t1"))
                         (onnx.uniqueName (named "t2"))];
          cg_values := cg_values g_chain |}.
Proof.
  apply (X7_two_activations_append_in_order the_rule abs_source abs_second
           g_chain (named "t0") (named "t1") (named "t1") (named "t2"));
    try reflexivity.
  intros xv Hin.
  repeat (apply elem_of_cons in Hin as [->|Hin]; [by eexists|]).
  by apply elem_of_nil in Hin.
Defined.

End TensorSelMore.

Module UpdatePassMore.
Import UpdatePass UpdatePassRef UpdatePassFacts.

(** X8. The in-place loop of [runOnGraphs] computes the list traversal
    [visit_all]: after the run, the node at every position is what
    [accept] returned for the node that stood there before the run, each
    call having seen the backend as the calls on the earlier nodes left
    it, and the backend is the one the last call left. *)
Theorem X8_run_is_ordered_traversal {Operator Backend : Type}
    (accept : Operator -> Backend -> Operator * Backend)
    (st : RunState Operator Backend) :
  rs_nodes (snd (runOnGraphs accept st))
    = fst (visit_all accept (rs_nodes st) (rs_backend st))
  /\ rs_backend (snd (runOnGraphs accept st))
     = snd (visit_all accept (rs_nodes st) (rs_backend st)).
Proof.
  destruct st as [nodes b cs]. unfold runOnGraphs. simpl.
  exact (loop_visit_all accept nodes [] b cs).
Qed.

(** X9. When the visitor rewrites each node by a function [f] of the node
    alone and leaves the backend as it is, one run maps [f] over the node
    sequence and returns the backend unchanged; with [f] the identity
    the graph is exactly as before, and the run still answers
    [kModuleChanged]. *)
Theorem X9_run_maps_node_rewrite {Operator Backend : Type}
    (accept : Operator -> Backend -> Operator * Backend)
    (f : Operator -> Operator) (st : RunState Operator Backend) :
  (forall o b, accept o b = (f o, b)) ->
  rs_nodes (snd (runOnGraphs accept st)) = map f (rs_nodes st)
  /\ rs_backend (snd (runOnGraphs accept st)) = rs_backend st
  /\ fst (runOnGraphs accept st) = kModuleChanged.
Proof.
  intros Hf. destruct st as [nodes b cs]. unfold runOnGraphs. simpl.
  destruct (loop_visit_all accept nodes [] b cs) as [Hn Hb].
  simpl in Hn, Hb. rewrite Hn, Hb.
  by rewrite (visit_all_map accept f nodes b Hf).
Qed.

(** X9 with nodes that are numbers and a visitor that increments them. *)
Lemma X9_run_maps_witness :
  let st := {| rs_nodes := [3; 5; 8]%nat; rs_backend := tt; rs_calls := [] |} in
  rs_nodes (snd (runOnGraphs (fun o b => (S o, b)) st)) = map S (rs_nodes st)
  /\ rs_backend (snd (runOnGraphs (fun o b => (S o, b)) st)) = rs_backend st
  /\ fst (runOnGraphs (fun o b => (S o, b)) st) = kModuleChanged.
Proof.
  apply (X9_run_maps_node_rewrite (fun (o : nat) (b : unit) => (S o, b)) S).
  reflexivity.
Defined.

End UpdatePassMore.

Module StatsMore.
Import Stats StatsOps StatsFacts.

Lemma to_int_id (z : Z) : is_int z -> to_int z = z.
Proof.
  unfold is_int, to_int.
  change (2 ^ 32) with 4294967296. change (2 ^ 31) with 2147483648.
  intros Hz. Z.div_mod_to_equations. lia.
Qed.

Lemma wrap_add (v n : Z) :
  to_int (to_unsigned (to_unsigned v + to_unsigned n)) = to_int (v + n).
Proof.
  unfold to_int, to_unsigned.
  change (2 ^ 32) with 4294967296. change (2 ^ 31) with 2147483648.
  Z.div_mod_to_equations. lia.
Qed.

Lemma wrap_sub (v n : Z) :
  to_int (to_unsigned (to_unsigned v - to_unsigned n)) = to_int (v - n).
Proof.
  unfold to_int, to_unsigned.
  change (2 ^ 32) with 4294967296. change (2 ^ 31) with 2147483648.
  Z.div_mod_to_equations. lia.
Qed.

Lemma to_int_add_l (a n : Z) : to_int (to_int a + n) = to_int (a + n).
Proof.
  unfold to_int.
  change (2 ^ 32) with 4294967296. change (2 ^ 31) with 2147483648.
  Z.div_mod_to_equations. lia.
Qed.

Lemma readEntry_int (gStat : Statistics) (g n : string) (v d : Z) :
  group gStat g !! n = Some (EInt v) -> readEntry gStat g n d = v.
Proof. intros Hv. unfold readEntry. by rewrite Hv. Qed.

Lemma readEntry_written (gStat : Statistics) (g n : string) (v d : Z) :
  readEntry (writeEntry gStat g n (EInt v)) g n d = v.
Proof.
  apply readEntry_int. by rewrite group_writeEntry, decide_True.
Qed.

Lemma increaseCounter_present (gStat : Statistics) (pName : string) (v n : Z) :
  group gStat "Counter" !! pName = Some (EInt v) ->
  increaseCounter pName n gStat
  = (true, writeEntry gStat "Counter" pName (EInt (to_int (v + n)))).
Proof.
  intros Hv. unfold increaseCounter.
  rewrite (proj2 (hasEntry_true gStat "Counter" pName)) by eauto. simpl.
  by rewrite (readEntry_int _ _ _ v 0 Hv), wrap_add.
Qed.

Lemma decreaseCounter_present (gStat : Statistics) (pName : string) (v n : Z) :
  group gStat "Counter" !! pName = Some (EInt v) ->
  decreaseCounter pName n gStat
  = (true, writeEntry gStat "Counter" pName (EInt (to_int (v - n)))).
Proof.
  intros Hv. unfold decreaseCounter.
  rewrite (proj2 (hasEntry_true gStat "Counter" pName)) by eauto. simpl.
  by rewrite (readEntry_int _ _ _ v 0 Hv), wrap_sub.
Qed.

Lemma group_writeEntry_other (gStat : Statistics) (g n : string) (v : Entry)
    (g' n' : string) :
  (g', n') <> (g, n) ->
  group (writeEntry gStat g n v) g' !! n' = group gStat g' !! n'.
Proof.
  intros Hne. rewrite group_writeEntry.
  case_decide as Hd; [|done]. destruct Hd as [-> ->]. done.
Qed.

(** X10. [resetCounter] on an existing counter returns true and the
    counter then reads the given number, every other entry being as
    before; on a name without a "Counter" entry it returns false and the
    store is as before (it does not create the counter). *)
Theorem X10_resetCounter (pName : string) (initNum : Z) (gStat : Statistics) :
  match group gStat "Counter" !! pName with
  | Some _ =>
      exists s,
        resetCounter pName initNum gStat = (true, s)
        /\ readEntry s "Counter" pName 0 = initNum
        /\ (forall g n, (g, n) <> ("Counter"%string, pName) ->
              group s g !! n = group gStat g !! n)
  | None => resetCounter pName initNum gStat = (false, gStat)
  end.
Proof.
  destruct (group gStat "Counter" !! pName) as [e|] eqn:Hlook.
  - unfold resetCounter.
    rewrite (proj2 (hasEntry_true gStat "Counter" pName)) by eauto. simpl.
    eexists. split; [reflexivity|]. split.
    + apply readEntry_written.
    + intros g n Hne. by apply group_writeEntry_other.
  - unfold resetCounter.
    by rewrite (proj2 (hasEntry_false gStat "Counter" pName) Hlook).
Qed.

(** X11. On a counter holding [v], [increaseCounter] by [n] leaves the
    counter at [v + n] and [decreaseCounter] by [n] leaves it at [v - n],
    both reduced into the range of [int]: the exact sum or difference
    whenever that is an [int] (a decrease below zero goes negative, there
    is no clamping), and the wrapped value otherwise. *)
Theorem X11_counter_arithmetic (pName : string) (v n : Z) (gStat : Statistics) :
  group gStat "Counter" !! pName = Some (EInt v) ->
  readEntry (snd (increaseCounter pName n gStat)) "Counter" pName 0
    = to_int (v + n)
  /\ readEntry (snd (decreaseCounter pName n gStat)) "Counter" pName 0
     = to_int (v - n)
  /\ (is_int (v + n) -> to_int (v + n) = v + n)
  /\ (is_int (v - n) -> to_int (v - n) = v - n).
Proof.
  intros Hv.
  rewrite (increaseCounter_present gStat pName v n Hv).
  rewrite (decreaseCounter_present gStat pName v n Hv). simpl.
  rewrite !readEntry_written.
  repeat split; apply to_int_id.
Qed.

Lemma X11_counter_arithmetic_witness :
  readEntry (snd (increaseCounter "ops" 1 stats0)) "Counter" "ops" 0
    = to_int (2147483647 + 1)
  /\ readEntry (snd (decreaseCounter "ops" 1 stats0)) "Counter" "ops" 0
     = to_int (2147483647 - 1)
  /\ (is_int (2147483647 + 1) -> to_int (2147483647 + 1) = 2147483647 + 1)
  /\ (is_int (2147483647 - 1) -> to_int (2147483647 - 1) = 2147483647 - 1).
Proof.
  apply (X11_counter_arithmetic "ops" 2147483647 1 stats0). reflexivity.
Defined.

(** X12. Two increases in a row amount to one increase by the sum: the
    store after [increaseCounter] by [m] and then by [n] is the store
    after a single [increaseCounter] by [m + n] (modulo 2^32, as the
    amounts are [unsigned int]); likewise an increase by [n] undoes a
    decrease by [n]. *)
Theorem X12_increases_add_up (pName : string) (v m n : Z) (gStat : Statistics) :
  group gStat "Counter" !! pName = Some (EInt v) ->
  is_int v ->
  snd (increaseCounter pName n (snd (increaseCounter pName m gStat)))
    = snd (increaseCounter pName (m + n) gStat)
  /\ snd (increaseCounter pName n (snd (decreaseCounter pName n gStat)))
     = gStat.
Proof.
  intros Hv Hint. split.
  - rewrite (increaseCounter_present gStat pName v m Hv). simpl.
    rewrite (increaseCounter_present _ pName (to_int (v + m)) n)
      by (by rewrite group_writeEntry, decide_True).
    rewrite (increaseCounter_present gStat pName v (m + n) Hv). simpl.
    rewrite writeEntry_twice, to_int_add_l. do 3 f_equal. lia.
  - rewrite (decreaseCounter_present gStat pName v n Hv). simpl.
    rewrite (increaseCounter_present _ pName (to_int (v - n)) n)
      by (by rewrite group_writeEntry, decide_True).
    simpl. rewrite writeEntry_twice, to_int_add_l.
    replace (v - n + n) with v by lia.
    rewrite to_int_id by done. by apply writeEntry_id.
Qed.

Lemma X12_increases_add_up_witness :
  snd (increaseCounter "ops" 4 (snd (increaseCounter "ops" 3 stats0)))
    = snd (increaseCounter "ops" (3 + 4) stats0)
  /\ snd (increaseCounter "ops" 4 (snd (decreaseCounter "ops" 4 stats0)))
     = stats0.
Proof.
  apply (X12_increases_add_up "ops" 2147483647 3 4 stats0).
  - reflexivity.
  - unfold is_int. simpl. lia.
Defined.

(** X13. [increaseCounter], [decreaseCounter] and [resetCounter] touch the
    one "Counter" entry they are called for and nothing else: every other
    entry of every group (the description of the counter included) is as
    before, and no entry appears or disappears. *)
Theorem X13_counter_updates_are_local (pName : string) (k : Z)
    (gStat : Statistics) :
  agrees_off_counter pName gStat (snd (increaseCounter pName k gStat))
  /\ agrees_off_counter pName gStat (snd (decreaseCounter pName k gStat))
  /\ agrees_off_counter pName gStat (snd (resetCounter pName k gStat)).
Proof.
  assert (Hwrite : forall e,
    hasEntry gStat "Counter" pName = true ->
    agrees_off_counter pName gStat (writeEntry gStat "Counter" pName e)).
  { intros e Hhas. split.
    - intros g n Hne. by apply group_writeEntry_other.
    - intros g n. unfold hasEntry at 1.
      rewrite group_writeEntry. case_decide as Hd; [|done].
      destruct Hd as [<- <-]. rewrite Hhas.
      apply bool_decide_eq_true. by eexists. }
  assert (Hsame : agrees_off_counter pName gStat gStat) by done.
  unfold increaseCounter, decreaseCounter, resetCounter.
  destruct (hasEntry gStat "Counter" pName) eqn:Hhas; simpl;
    repeat split; try apply Hwrite; try apply Hsame; done.
Qed.

(** X14. A counter added to a store that has no counter of that name
    starts at zero: [addCounter] followed by [increaseCounter] by an
    amount [n] with [0 <= n < 2^31] returns true both times and the
    counter then reads exactly [n]. *)
Theorem X14_new_counter_counts_from_zero (pName pDesc : string) (n : Z)
    (gStat : Statistics) :
  group gStat "Counter" !! pName = None ->
  0 <= n < 2 ^ 31 ->
  exists s1 s2,
    addCounter2 pName pDesc gStat = (true, s1)
    /\ increaseCounter pName n s1 = (true, s2)
    /\ readEntry s1 "Counter" pName 0 = 0
    /\ readEntry s2 "Counter" pName 0 = n.
Proof.
  intros Hnone Hn. unfold addCounter2.
  rewrite (proj2 (hasEntry_false gStat "Counter" pName) Hnone).
  eexists _, _. split; [reflexivity|].
  assert (Hzero : group
            (writeEntry (writeEntry gStat "Counter" pName (EInt 0))
               "Counter_Desc" pName (EString pDesc)) "Counter" !! pName
          = Some (EInt 0)).
  { rewrite group_writeEntry_other by (intros [=]).
    by rewrite group_writeEntry, decide_True. }
  rewrite (increaseCounter_present _ pName 0 n Hzero).
  split; [reflexivity|]. split.
  - by apply readEntry_int.
  - rewrite readEntry_written. apply to_int_id. unfold is_int.
    change (2 ^ 31) with 2147483648 in *. lia.
Qed.

Lemma X14_new_counter_witness :
  exists s1 s2,
    addCounter2 "ops" "operators seen" ∅ = (true, s1)
    /\ increaseCounter "ops" 5 s1 = (true, s2)
    /\ readEntry s1 "Counter" "ops" 0 = 0
    /\ readEntry s2 "Counter" "ops" 0 = 5.
Proof.
  apply (X14_new_counter_counts_from_zero "ops" "operators seen" 5 ∅).
  - reflexivity.
  - simpl. lia.
Defined.

(** X15. [printCounter] writes nothing for a name that has no "Counter"
    entry. Right after [addCounter] has created the counter it writes one
    line made of the name, the number 0 and the description given (the
    text "no description" for the one-argument [addCounter]), separated by
    commas and ended by a newline, behind what the stream already held. *)
Theorem X15_printCounter_line (pName pDesc : string) (gStat : Statistics)
    (pOS : string) :
  group gStat "Counter" !! pName = None ->
  printCounter pName gStat pOS = pOS
  /\ printCounter pName (snd (addCounter2 pName pDesc gStat)) pOS
     = String.append pOS
         (String.append pName
         (String.append ",0,"
         (String.append pDesc endl)))
  /\ printCounter pName (snd (addCounter pName gStat)) pOS
     = String.append pOS
         (String.append pName
         (String.append ",0,"
         (String.append "no description" endl))).
Proof.
  intros Hnone.
  assert (Hnew : forall d,
    printCounter pName (snd (addCounter2 pName d gStat)) pOS
    = String.append pOS
        (String.append pName (String.append ",0," (String.append d endl)))).
  { intros d. unfold addCounter2.
    rewrite (proj2 (hasEntry_false gStat "Counter" pName) Hnone). simpl.
    unfold printCounter.
    assert (Hc : group
              (writeEntry (writeEntry gStat "Counter" pName (EInt 0))
                 "Counter_Desc" pName (EString d)) "Counter" !! pName
            = Some (EInt 0)).
    { rewrite group_writeEntry_other by (intros [=]).
      by rewrite group_writeEntry, decide_True. }
    rewrite (proj2 (hasEntry_true _ "Counter" pName)) by eauto. simpl.
    rewrite (readEntry_int _ _ _ 0 0 Hc).
    unfold readEntry_str. rewrite group_writeEntry, decide_True by done.
    reflexivity. }
  split; [|split].
  - unfold printCounter.
    by rewrite (proj2 (hasEntry_false gStat "Counter" pName) Hnone).
  - apply Hnew.
  - unfold addCounter. apply Hnew.
Qed.

Lemma X15_printCounter_witness :
  printCounter "ops" ∅ "log:" = "log:"%string
  /\ printCounter "ops" (snd (addCounter2 "ops" "operators seen" ∅)) "log:"
     = String.append "log:"
         (String.append "ops"
         (String.append ",0,"
         (String.append "operators seen" endl)))
  /\ printCounter "ops" (snd (addCounter "ops" ∅)) "log:"
     = String.append "log:"
         (String.append "ops"
         (String.append ",0,"
         (String.append "no description" endl))).
Proof.
  apply (X15_printCounter_line "ops" "operators seen" ∅ "log:").
  reflexivity.
Defined.

(** X21. On a name that has no "Counter" entry, [increaseCounter],
    [decreaseCounter] and [resetCounter] all return false and leave the
    store exactly as it is, whatever else the store holds (also when it
    holds no counter at all, as the empty store): none of them creates
    the counter. *)
Theorem X21_absent_counter_is_never_created (qName : string) (n : Z)
    (gStat : Statistics) :
  group gStat "Counter" !! qName = None ->
  increaseCounter qName n gStat = (false, gStat)
  /\ decreaseCounter qName n gStat = (false, gStat)
  /\ resetCounter qName n gStat = (false, gStat)
  /\ hasEntry gStat "Counter" qName = false.
Proof.
  intros Hq.
  destruct (absent_counter_untouched qName n gStat Hq) as [Hi Hd].
  assert (Hhas : hasEntry gStat "Counter" qName = false)
    by by apply hasEntry_false.
  repeat split; try done.
  unfold resetCounter. by rewrite Hhas.
Qed.

(** X21 on the empty store. *)
Lemma X21_absent_counter_witness :
  increaseCounter "idle" 3 ∅ = (false, ∅)
  /\ decreaseCounter "idle" 3 ∅ = (false, ∅)
  /\ resetCounter "idle" 3 ∅ = (false, ∅)
  /\ hasEntry ∅ "Counter" "idle" = false.
Proof.
  apply (X21_absent_counter_is_never_created "idle" 3 ∅). reflexivity.
Defined.

End StatsMore.

Module StatObjectFacts.
Import StatObject.

Section Reader.
Variable reader_read : string -> Value -> bool * Value.
Variable reader_parse : string -> Value -> ReaderResult * Value.

Lemma read_keeps_group_over_object (pContent : option string)
    (this : Statistics) :
  group_over_object this ->
  group_over_object (fst (read reader_read pContent this)).
Proof.
  intros Hwf. unfold read.
  destruct pContent as [content|]; [|done].
  destruct (isValid this) eqn:Hv; simpl; [done|].
  destruct (reader_read content (clear (m_Value this))) as [ok v].
  destruct ok; simpl.
  - destruct (isObject v) eqn:Ho; simpl.
    + intros _. exact Ho.
    + unfold group_over_object, isValid in *. simpl. congruence.
  - unfold group_over_object, isValid in *. simpl. congruence.
Qed.

Lemma open_keeps_group_over_object (pFilePath : string) (pMode : AccessMode)
    (this : Statistics) :
  group_over_object this ->
  group_over_object (fst (open reader_parse pFilePath pMode this)).
Proof.
  intros Hwf. unfold open.
  destruct (isValid this) eqn:Hv; simpl; [done|].
  destruct (reader_parse pFilePath (m_Value this)) as [result v].
  case_bool_decide; simpl.
  - unfold group_over_object, isValid in *. simpl. congruence.
  - case_bool_decide; simpl.
    + unfold group_over_object, isValid in *. simpl. congruence.
    + destruct v; simpl; try (intros _; reflexivity).
      unfold group_over_object, isValid in *. simpl in *. congruence.
Qed.

Lemma calls_keep_group_over_object (cs : list Call) (this : Statistics) :
  group_over_object this ->
  group_over_object (calls reader_read reader_parse cs this).
Proof.
  revert this. induction cs as [|c cs IH]; intros this Hwf; [done|].
  simpl. apply IH. destruct c as [pContent|pFilePath pMode|]; simpl.
  - by apply read_keeps_group_over_object.
  - by apply open_keeps_group_over_object.
  - unfold group_over_object, reset, isValid. simpl. congruence.
Qed.

End Reader.

(** X16. The group pointer of a [Statistics] is set only while [m_Value]
    is a JSON object: this holds for every constructor, and every
    sequence of [read], [open] and [reset] calls keeps it, whatever the
    JSON reader answers. *)
Theorem X16_valid_statistics_holds_an_object
    (reader_read : string -> Value -> bool * Value)
    (reader_parse : string -> Value -> ReaderResult * Value)
    (cs : list Call) (content : option string) (path : string)
    (mode : AccessMode) :
  group_over_object (calls reader_read reader_parse cs Statistics_new)
  /\ group_over_object
       (calls reader_read reader_parse cs
          (fst (Statistics_of_StringRef reader_read content)))
  /\ group_over_object
       (calls reader_read reader_parse cs
          (fst (Statistics_of_cstr reader_read content)))
  /\ group_over_object
       (calls reader_read reader_parse cs
          (fst (Statistics_of_path reader_parse path mode))).
Proof.
  assert (Hnew : group_over_object Statistics_new) by discriminate.
  repeat split; apply calls_keep_group_over_object.
  - exact Hnew.
  - by apply read_keeps_group_over_object.
  - destruct content; [by apply read_keeps_group_over_object|exact Hnew].
  - apply open_keeps_group_over_object. discriminate.
Qed.

(** X17. The first successful load wins: on a valid object, [read] and
    [open] change nothing (content, path and mode are ignored) and raise
    no diagnostic. *)
Theorem X17_loading_a_valid_object_is_ignored
    (reader_read : string -> Value -> bool * Value)
    (reader_parse : string -> Value -> ReaderResult * Value)
    (this : Statistics) (content : option string) (path : string)
    (mode : AccessMode) :
  isValid this = true ->
  read reader_read content this = (this, [])
  /\ open reader_parse path mode this = (this, []).
Proof.
  intros Hv. unfold read, open. rewrite Hv. simpl.
  by destruct content.
Qed.

Lemma X17_loading_a_valid_object_witness :
  read toy_read (Some "[1]"%string) (fst (Statistics_of_string toy_read "{}"))
    = (fst (Statistics_of_string toy_read "{}"), [])
  /\ open toy_parse "other.json" kReadWrite
       (fst (Statistics_of_string toy_read "{}"))
     = (fst (Statistics_of_string toy_read "{}"), []).
Proof.
  apply (X17_loading_a_valid_object_is_ignored toy_read toy_parse
           (fst (Statistics_of_string toy_read "{}"))
           (Some "[1]"%string) "other.json" kReadWrite).
  reflexivity.
Defined.

(** X18. [reset] brings any object back to the default-constructed state,
    so a load after [reset] behaves as the matching constructor does:
    [read] gives what the constructor from a string gives, [open] what the
    constructor from a path and a mode gives, diagnostics included. *)
Theorem X18_reset_then_load_is_construction
    (reader_read : string -> Value -> bool * Value)
    (reader_parse : string -> Value -> ReaderResult * Value)
    (this : Statistics) (content path : string) (mode : AccessMode) :
  reset this = Statistics_new
  /\ isValid (reset this) = false
  /\ accessMode (reset this) = kReadOnly
  /\ read reader_read (Some content) (reset this)
     = Statistics_of_string reader_read content
  /\ open reader_parse path mode (reset this)
     = Statistics_of_path reader_parse path mode.
Proof. repeat split. Qed.

(** X19. [open] on an object that is not valid always records the path
    and the access mode, also when loading fails. The object becomes valid
    exactly when the reader answers neither [kCantOpen] nor [kIllegal] and
    leaves an object or an undefined value (an empty file), the latter
    being replaced by an empty object; exactly one diagnostic is raised
    when it does not become valid, none when it does. *)
Theorem X19_open_outcomes
    (reader_parse : string -> Value -> ReaderResult * Value)
    (this : Statistics) (path : string) (mode : AccessMode) :
  isValid this = false ->
  let result := fst (reader_parse path (m_Value this)) in
  let v := snd (reader_parse path (m_Value this)) in
  let after := fst (open reader_parse path mode this) in
  let diags := snd (open reader_parse path mode this) in
  accessMode after = mode
  /\ m_FilePath after = path
  /\ (isValid after = true
      <-> result = kSuccess /\ (isObject v = true \/ isUndefined v = true))
  /\ m_Value after = (if isValid after && isUndefined v then Object ∅ else v)
  /\ length diags = (if isValid after then 0%nat else 1%nat).
Proof.
  intros Hv. simpl. unfold open, accessMode, isValid in *. rewrite Hv. simpl.
  destruct (reader_parse path (m_Value this)) as [result v]. simpl.
  destruct result; simpl; rewrite ?Hv; simpl.
  - repeat split; try done. intros [? _]. discriminate.
  - repeat split; try done. intros [? _]. discriminate.
  - destruct v; simpl; rewrite ?Hv; simpl; repeat split; try done; eauto.
    intros [_ [?|?]]; discriminate.
Qed.

Lemma X19_open_outcomes_witness :
  let result := fst (toy_parse "empty.json" (m_Value Statistics_new)) in
  let v := snd (toy_parse "empty.json" (m_Value Statistics_new)) in
  let after := fst (open toy_parse "empty.json" kReadWrite Statistics_new) in
  let diags := snd (open toy_parse "empty.json" kReadWrite Statistics_new) in
  accessMode after = kReadWrite
  /\ m_FilePath after = "empty.json"%string
  /\ (isValid after = true
      <-> result = kSuccess /\ (isObject v = true \/ isUndefined v = true))
  /\ m_Value after = (if isValid after && isUndefined v then Object ∅ else v)
  /\ length diags = (if isValid after then 0%nat else 1%nat).
Proof.
  apply (X19_open_outcomes toy_parse Statistics_new "empty.json" kReadWrite).
  reflexivity.
Defined.

(** X20. [read] of a text on an object that is not valid always leaves
    the object read-only with an empty path, whatever mode and path an
    earlier failed [open] recorded. The object becomes valid exactly when
    the reader accepts the text and leaves an object; otherwise exactly
    one diagnostic, carrying the text, is raised. A [StringRef] without
    data is ignored, and the constructor from a null [const char*] gives
    an object that is not valid and one diagnostic. *)
Theorem X20_read_outcomes
    (reader_read : string -> Value -> bool * Value)
    (this : Statistics) (content : string) :
  isValid this = false ->
  let ok := fst (reader_read content (clear (m_Value this))) in
  let v := snd (reader_read content (clear (m_Value this))) in
  let after := fst (read reader_read (Some content) this) in
  let diags := snd (read reader_read (Some content) this) in
  accessMode after = kReadOnly
  /\ m_FilePath after = ""%string
  /\ m_Value after = v
  /\ (isValid after = true <-> ok = true /\ isObject v = true)
  /\ diags = (if isValid after then []
              else [("can not read json string:"%string, content)])
  /\ read reader_read None this = (this, [])
  /\ isValid (fst (Statistics_of_cstr reader_read None)) = false
  /\ length (snd (Statistics_of_cstr reader_read None)) = 1%nat.
Proof.
  intros Hv. simpl. unfold read, accessMode, isValid in *. rewrite Hv. simpl.
  destruct (reader_read content (clear (m_Value this))) as [ok v]. simpl.
  destruct ok; simpl.
  - destruct (isObject v) eqn:Ho; simpl; rewrite ?Hv;
      repeat split; try done.
    intros [_ ?]. discriminate.
  - rewrite ?Hv. repeat split; try done.
    intros [? _]. discriminate.
Qed.

Lemma X20_read_outcomes_witness :
  let this := fst (open toy_parse "missing.json" kReadWrite Statistics_new) in
  let ok := fst (toy_read "{}" (clear (m_Value this))) in
  let v := snd (toy_read "{}" (clear (m_Value this))) in
  let after := fst (read toy_read (Some "{}"%string) this) in
  let diags := snd (read toy_read (Some "{}"%string) this) in
  accessMode after = kReadOnly
  /\ m_FilePath after = ""%string
  /\ m_Value after = v
  /\ (isValid after = true <-> ok = true /\ isObject v = true)
  /\ diags = (if isValid after then []
              else [("can not read json string:"%string, "{}"%string)])
  /\ read toy_read None this = (this, [])
  /\ isValid (fst (Statistics_of_cstr toy_read None)) = false
  /\ length (snd (Statistics_of_cstr toy_read None)) = 1%nat.
Proof.
  apply (X20_read_outcomes toy_read
           (fst (open toy_parse "missing.json" kReadWrite Statistics_new))
           "{}").
  reflexivity.
Defined.

(** X3. [sync] rewrites a file only for an object in read-write mode
    whose path is a regular file that can be opened for writing (the file
    written is the one at the object's path), and it answers false only
    when the object is in read-write mode, the path is a regular file and
    the file cannot be opened. A default-constructed object, an object
    constructed from a string and an object after [reset] are read-only,
    so [sync] (and with it the destructor) writes nothing for them and
    answers true. A [read] that takes effect, on an object that is not
    valid, leaves the object read-only as well; a [read] on a valid
    object is ignored, and [sync] then does what it did before the
    [read]. *)
Theorem X3_sync_writes_only_read_write_files
    (is_regular ofs_is_open : string -> bool)
    (reader_read : string -> Value -> bool * Value)
    (this : Statistics) (content : string) :
  (fst (sync is_regular ofs_is_open this) = false
   <-> accessMode this = kReadWrite
       /\ is_regular (m_FilePath this) = true
       /\ ofs_is_open (m_FilePath this) = false)
  /\ (is_Some (snd (sync is_regular ofs_is_open this))
      <-> accessMode this = kReadWrite
          /\ is_regular (m_FilePath this) = true
          /\ ofs_is_open (m_FilePath this) = true)
  /\ (forall p, snd (sync is_regular ofs_is_open this) = Some p ->
        p = m_FilePath this)
  /\ sync is_regular ofs_is_open Statistics_new = (true, None)
  /\ sync is_regular ofs_is_open (reset this) = (true, None)
  /\ sync is_regular ofs_is_open (fst (Statistics_of_string reader_read content))
     = (true, None)
  /\ sync is_regular ofs_is_open (fst (read reader_read (Some content) this))
     = (if isValid this then sync is_regular ofs_is_open this
        else (true, None)).
Proof.
  assert (Hread : forall s, isValid s = false ->
            sync is_regular ofs_is_open (fst (read reader_read (Some content) s))
            = (true, None)).
  { intros s Hs. unfold read. rewrite Hs. simpl.
    destruct (reader_read content (clear (m_Value s))) as [ok v].
    by destruct (negb ok || negb (isObject v)). }
  split; [|split; [|split; [|split; [|split; [|split]]]]].
  - unfold sync.
    destruct (accessMode this), (is_regular (m_FilePath this)),
      (ofs_is_open (m_FilePath this)); simpl; split;
      try done; intros (? & ? & ?); done.
  - unfold sync.
    destruct (accessMode this), (is_regular (m_FilePath this)),
      (ofs_is_open (m_FilePath this)); simpl; split;
      try done; try (intros (? & ? & ?); done); try (by intros [? ?]);
      by eexists.
  - intros p. unfold sync.
    destruct (bool_decide (kReadWrite = accessMode this)
              && is_regular (m_FilePath this)); [|done].
    destruct (negb (ofs_is_open (m_FilePath this))); [done|].
    simpl. congruence.
  - reflexivity.
  - reflexivity.
  - by apply Hread.
  - destruct (isValid this) eqn:Hv.
    + unfold read. by rewrite Hv.
    + by apply Hread.
Qed.

(** A valid read-write object stays read-write across an ignored [read],
    and [sync] still rewrites its file. *)
Example sync_after_ignored_read :
  sync (fun _ => true) (fun _ => true)
    (fst (read toy_read (Some "{}"%string)
            (fst (open toy_parse "empty.json" kReadWrite Statistics_new))))
  = (true, Some "empty.json"%string).
Proof. reflexivity. Qed.

End StatObjectFacts.
